(** * MetHAL: a client for the HAL (Solr) search API

    A shallow embedding of [index.js]: the query compiler [buildQuery], the
    single-shot operations [query], [find] and [findOne], and the cursor
    stream [ApiHalStream], followed by the properties checked on them. *)

From Stdlib Require Import ZArith String Ascii List DecimalString Permutation.
From stdpp Require Import base tactics option list strings gmap.

Local Set Warnings "-register-all".
Local Open Scope string_scope.
Local Open Scope Z_scope.
Local Open Scope list_scope.

(** ** JavaScript values *)

(** The values a search descriptor or an options object is made of.  A number
    is an integer in the safe range (its decimal text is then exact), a
    string is a sequence of ASCII code units, an array is dense, and an
    object is given by its own enumerable properties in the order [for ... in]
    visits them; an object has no two properties of one name
    (see [wf_props]). *)
Inductive value : Type :=
| VUndefined
| VNull
| VBool (b : bool)
| VNum (n : Z)
| VStr (s : string)
| VArr (elems : list value)
| VObj (props : list (string * value)).

Inductive error : Type :=
| TypeError
| Error (message : string).

(** A computation that returns or throws. *)
Inductive result (A : Type) : Type :=
| Ok (a : A)
| Throw (e : error).
Arguments Ok {A} a.
Arguments Throw {A} e.

Definition bind {A B} (m : result A) (k : A -> result B) : result B :=
  match m with
  | Ok a => k a
  | Throw e => Throw e
  end.

Notation "'let*' x ':=' m 'in' k" := (bind m (fun x => k))
  (at level 10, x name, m at level 100, k at level 200).

Definition throws {A} (m : result A) : Prop := exists e, m = Throw e.

Definition wf_props (props : list (string * value)) : Prop :=
  NoDup (map fst props).

(** [!!v] *)
Definition truthy (v : value) : bool :=
  match v with
  | VUndefined | VNull => false
  | VBool b => b
  | VNum n => negb (n =? 0)
  | VStr s => negb (String.eqb s "")
  | VArr _ | VObj _ => true
  end.

Definition nonempty (s : string) : bool := negb (String.eqb s "").

Definition nat_to_string (n : nat) : string :=
  NilZero.string_of_uint (Nat.to_uint n).

Definition num_to_string (n : Z) : string :=
  NilZero.string_of_int (Z.to_int n).

(** An object: its own enumerable properties, in enumeration order. *)
Abbreviation object := (list (string * value)).

Definition has_own (k : string) (o : object) : bool :=
  existsb (fun kv => String.eqb (fst kv) k) o.

(** [o[k]], [undefined] when absent. *)
Fixpoint get_prop (k : string) (o : object) : value :=
  match o with
  | [] => VUndefined
  | (k', v) :: rest => if String.eqb k' k then v else get_prop k rest
  end.

(** [o[k] = v]: an existing property keeps its place, a new one comes last. *)
Fixpoint set_prop (k : string) (v : value) (o : object) : object :=
  match o with
  | [] => [(k, v)]
  | (k', v') :: rest =>
      if String.eqb k' k then (k, v) :: rest else (k', v') :: set_prop k v rest
  end.

(** [delete o[k]] *)
Definition delete_prop (k : string) (o : object) : object :=
  filter (fun kv => fst kv <> k) o.

(** [xs.map(f)] for an [f] that may throw: the first exception wins. *)
Definition mapM {A B} (f : A -> result B) : list A -> result (list B) :=
  fix go (xs : list A) :=
    match xs with
    | [] => Ok []
    | x :: rest =>
        let* y := f x in
        let* ys := go rest in
        Ok (y :: ys)
    end.

(** [String(v)], the conversion a template literal applies.  An array joins
    its elements with a comma, [null] and [undefined] elements giving the
    empty text.  A plain object gives [[object Object]] through the method
    it inherits; an own property named [toString] hides that method and,
    being no function here, makes the conversion raise a [TypeError]. *)
Fixpoint ToString (v : value) : result string :=
  match v with
  | VUndefined => Ok "undefined"
  | VNull => Ok "null"
  | VBool true => Ok "true"
  | VBool false => Ok "false"
  | VNum n => Ok (num_to_string n)
  | VStr s => Ok s
  | VArr elems =>
      let* texts :=
        mapM (fun x => match x with
                       | VUndefined | VNull => Ok ""
                       | _ => ToString x
                       end) elems in
      Ok (String.concat "," texts)
  | VObj props =>
      if has_own "toString" props then Throw TypeError else Ok "[object Object]"
  end.

(** [v.toString()]: reading the method off [null] or [undefined] throws. *)
Definition toString (v : value) : result string :=
  match v with
  | VUndefined | VNull => Throw TypeError
  | _ => ToString v
  end.

(** A value with a text of its own: a string, a number or a boolean. *)
Definition scalar (v : value) : bool :=
  match v with
  | VStr _ | VNum _ | VBool _ => true
  | _ => false
  end.

(** The properties [for (const p in s)] visits on a string: its indices. *)
Fixpoint string_props_from (i : nat) (s : string) : list (string * value) :=
  match s with
  | EmptyString => []
  | String c rest =>
      (nat_to_string i, VStr (String c EmptyString)) :: string_props_from (S i) rest
  end.

Definition string_props (s : string) : list (string * value) :=
  string_props_from 0 s.

(** ** The query compiler *)

Module Compiler.

(** The two locals of [buildQuery]: [parts] and [negation]. *)
Definition acc : Type := list string * option string.

Section Loops.
(** The recursive call, [buildQuery(sub, operator)]. *)
Variable rec : value -> string -> result string.

(** [search.forEach(function (subquery) { ... })] *)
Definition forEach : list value -> list string -> result (list string) :=
  fix go (elems : list value) (parts : list string) :=
    match elems with
    | [] => Ok parts
    | subquery :: rest =>
        let* part := rec subquery "AND" in
        go rest (if nonempty part then parts ++ [part] else parts)
    end.

(** The [switch (p)] of the [for ... in] loop. *)
Definition for_in_body (st : acc) (p : string) (v : value) : result acc :=
  let '(parts, negation) := st in
  if String.eqb p "$or" then
    let* subquery := rec v "OR" in
    Ok (if nonempty subquery then parts ++ [subquery] else parts, negation)
  else if String.eqb p "$and" then
    let* subquery := rec v "AND" in
    Ok (if nonempty subquery then parts ++ [subquery] else parts, negation)
  else if String.eqb p "$not" then
    let* subquery := rec v "OR" in
    Ok (parts,
        if nonempty subquery then Some ("NOT(" +:+ subquery +:+ ")") else negation)
  else
    let* text := toString v in
    Ok (parts ++ [p +:+ ":" +:+ text], negation).

(** [for (const p in search) { ... }] *)
Definition for_in : list (string * value) -> acc -> result acc :=
  fix go (props : list (string * value)) (st : acc) :=
    match props with
    | [] => Ok st
    | (p, v) :: rest =>
        let* st' := for_in_body st p v in
        go rest st'
    end.
End Loops.

(** The keys the loop treats as operators. *)
Definition reserved (p : string) : bool :=
  String.eqb p "$or" || String.eqb p "$and" || String.eqb p "$not".

(** What one property adds to [parts] and [negation], and how the loop
    merges it into them. *)
Definition contribution (rec : value -> string -> result string)
    (p : string) (v : value) : result acc :=
  for_in_body rec ([], None) p v.

Definition merge (st c : acc) : acc :=
  (fst st ++ fst c, match snd c with Some n => Some n | None => snd st end).

(** Two runs of the loop agree up to the order of the parts: the same
    parts and the same negation, or an exception in both. *)
Definition same_terms (st1 st2 : acc) : Prop :=
  Permutation (fst st1) (fst st2) /\ snd st1 = snd st2.

Definition same_outcome (r1 r2 : result acc) : Prop :=
  match r1, r2 with
  | Ok st1, Ok st2 => same_terms st1 st2
  | Throw _, Throw _ => True
  | _, _ => False
  end.

(** Lines 47-58: the clause built from [parts] and [negation]. *)
Definition combine (operator : string) (st : acc) : string :=
  let '(parts, negation) := st in
  match parts with
  | [] => default "" negation
  | first :: others =>
      match negation, others with
      | None, [] => first
      | _, _ =>
          (match negation with
           | Some neg => neg +:+ " " +:+ operator +:+ " ("
           | None => "("
           end)
          +:+ String.concat (") " +:+ operator +:+ " (") parts
          +:+ ")"
      end
  end.

(** [operator || 'AND'] on the optional second argument. *)
Definition operator_or_AND (operator : option string) : string :=
  match operator with
  | Some op => if nonempty op then op else "AND"
  | None => "AND"
  end.

(** [buildQuery(search, operator)].  A falsy [search] is replaced by [{}];
    a number or a boolean has no enumerable property.  On a string the loop
    visits the indices, none of which is a reserved key, so the recursive
    call it is given is never used (see [for_in_string_props]). *)
Fixpoint buildQuery_op (search : value) (operator : string) {struct search}
  : result string :=
  match search with
  | VArr elems =>
      let* parts := forEach buildQuery_op elems [] in
      Ok (combine operator (parts, None))
  | VObj props =>
      let* st := for_in buildQuery_op props ([], None) in
      Ok (combine operator st)
  | VStr s =>
      let* st := for_in (fun _ _ => Ok "") (string_props s) ([], None) in
      Ok (combine operator st)
  | VUndefined | VNull | VBool _ | VNum _ =>
      Ok (combine operator ([], None))
  end.

Definition buildQuery (search : value) (operator : option string) : result string :=
  buildQuery_op search (operator_or_AND operator).

(** A descriptor all of whose field terms hold a string, a number or a
    boolean; the operands of [$or], [$and] and [$not] and the elements of a
    list are descriptors again. *)
Fixpoint scalar_terms (search : value) : bool :=
  match search with
  | VArr elems => forallb scalar_terms elems
  | VObj props =>
      forallb (fun kv => let '(p, v) := kv in
                         if reserved p then scalar_terms v else scalar v) props
  | _ => true
  end.

(** [null] or [undefined]. *)
Definition nullish (v : value) : bool :=
  match v with
  | VUndefined | VNull => true
  | _ => false
  end.

(** A descriptor that holds, at some depth, a field term whose value is
    [null] or [undefined]: in the mapping itself, in an element of a list,
    or in the operand of [$or], [$and] or [$not]. *)
Fixpoint has_null_term (search : value) : bool :=
  match search with
  | VArr elems => existsb has_null_term elems
  | VObj props =>
      existsb (fun kv => let '(p, v) := kv in
                         if reserved p then has_null_term v else nullish v) props
  | _ => false
  end.

(** A field value the loop finds a text for without raising: a string, a
    number, a boolean, or a plain object (one that does not hide the
    [toString] it inherits). *)
Definition has_text (v : value) : bool :=
  match v with
  | VObj o => negb (has_own "toString" o)
  | _ => scalar v
  end.

(** A descriptor all of whose field terms, at every depth, hold such a
    value. *)
Fixpoint text_terms (search : value) : bool :=
  match search with
  | VArr elems => forallb text_terms elems
  | VObj props =>
      forallb (fun kv => let '(p, v) := kv in
                         if reserved p then text_terms v else has_text v) props
  | _ => true
  end.

(** The parts are never empty texts, and neither is the negation. *)
Definition terms_nonempty (st : acc) : Prop :=
  Forall (fun part => nonempty part = true) (fst st)
  /\ (forall neg, snd st = Some neg -> nonempty neg = true).

(** The term the loop writes for a field [p] whose value has the text [t]. *)
Definition field_term (kv : string * value) (t : string) : string :=
  fst kv +:+ ":" +:+ t.

(** The term the loop writes for the character [c] found at index [p]. *)
Definition index_term (kv : string * value) : string :=
  fst kv +:+ ":" +:+ match snd kv with VStr c => c | _ => "" end.

End Compiler.

(** ** Objects in the heap *)

(** An options object is passed by reference: the heap maps a location to
    the object's own properties, in enumeration order. *)
Definition loc : Type := positive.
Abbreviation heap := (gmap loc object).

Definition load (l : loc) (h : heap) : object := default [] (h !! l).

Definition alloc (o : object) (h : heap) : loc * heap :=
  let l := fresh (dom h) in (l, <[l := o]> h).

(** ** URL encoding *)

Definition unreserved (c : ascii) : bool :=
  let n := nat_of_ascii c in
  (Nat.leb 65 n && Nat.leb n 90) || (Nat.leb 97 n && Nat.leb n 122)
  || (Nat.leb 48 n && Nat.leb n 57)
  || existsb (Ascii.eqb c) (list_ascii_of_string "-_.!~*'()").

Definition hex_digit (n : nat) : ascii :=
  nth n (list_ascii_of_string "0123456789ABCDEF") "0"%char.

Definition percent (c : ascii) : string :=
  let n := nat_of_ascii c in
  String "%" (String (hex_digit (n / 16)) (String (hex_digit (n mod 16)) EmptyString)).

(** [encodeURIComponent(s)] and [querystring.escape(s)] on ASCII text. *)
Fixpoint encodeURIComponent (s : string) : string :=
  match s with
  | EmptyString => EmptyString
  | String c rest =>
      (if unreserved c then String c EmptyString else percent c)
      +:+ encodeURIComponent rest
  end.

(** The characters an escaped text is made of: the unreserved ones and the
    percent sign of the escapes. *)
Definition url_safe (c : ascii) : bool :=
  unreserved c || Ascii.eqb c "%".

(** The character the escape [%hl] stands for. *)
Definition hex_value (c : ascii) : nat :=
  let n := nat_of_ascii c in
  if Nat.leb 65 n then (n - 55)%nat else (n - 48)%nat.

Definition unpercent (h l : ascii) : ascii :=
  ascii_of_nat (16 * hex_value h + hex_value l).

(** [querystring.stringify(obj)] of Node: a primitive is printed, anything
    else gives the empty text, and an array repeats its key. *)
Definition stringifyPrimitive (v : value) : string :=
  match v with
  | VStr s => s
  | VNum n => num_to_string n
  | VBool true => "true"
  | VBool false => "false"
  | _ => ""
  end.

Definition stringify_field (kv : string * value) : list string :=
  let ks := encodeURIComponent (fst kv) +:+ "=" in
  match snd kv with
  | VArr elems => map (fun e => ks +:+ encodeURIComponent (stringifyPrimitive e)) elems
  | v => [ks +:+ encodeURIComponent (stringifyPrimitive v)]
  end.

Definition stringify (o : object) : string :=
  String.concat "&" (concat (map stringify_field o)).

(** ** The single-shot operations *)

Module Api.

(** A user callback is opaque; what an operation does to it is the list of
    its invocations [callback(err, result)]. *)
Definition fn : Type := nat.

Record call : Type := Call {
  callee : fn;
  call_err : option error;
  call_result : value
}.

(** A function of the library taking [(err, result)]: it returns the
    invocations of user callbacks it made, or throws. *)
Definition continuation : Type := option error -> value -> result (list call).

(** A user callback passed where a function is expected; it does not throw. *)
Definition user (f : fn) : continuation :=
  fun err res => Ok [Call f err res].

(** The [options] argument: omitted, the callback in its place, or an object. *)
Inductive arg : Type :=
| ArgUndefined
| ArgFunction (f : fn)
| ArgObject (l : loc).

Record http_response : Type := Response {
  status : Z;
  data : value
}.

Inductive outcome : Type :=
| Fulfilled (response : http_response)
| Rejected (e : error).

(** [axios.get(url, requestOptions)] with the handlers chained on it. *)
Record request : Type := Request {
  url : string;
  proxy : option value;
  settle : outcome -> result (list call)
}.

(** [options = options || {}] then the [typeof options === 'function']
    swap: the object used and the callback used. *)
Definition normalize (options : arg) (callback : continuation) (h : heap)
  : loc * continuation * heap :=
  match options with
  | ArgUndefined => let '(l, h') := alloc [] h in (l, callback, h')
  | ArgFunction f => let '(l, h') := alloc [] h in (l, user f, h')
  | ArgObject l => (l, callback, h)
  end.

(** Line 124. *)
Definition query_text (search : value) : result string :=
  match search with
  | VStr s => Ok s
  | _ =>
      let* compiled := Compiler.buildQuery search (Some "AND") in
      Ok (if nonempty compiled then compiled else "*:*")
  end.

(** Lines 126-130: the proxy moves from the options to the request. *)
Definition take_proxy (o : object) : option value * object :=
  if has_own "proxy" o
  then (Some (get_prop "proxy" o), delete_prop "proxy" o)
  else (None, o).

(** Lines 133-139. *)
Definition base_url (o : object) (query : string) : result string :=
  let* host :=
    if truthy (get_prop "host" o) then ToString (get_prop "host" o)
    else Ok "http://api.archives-ouvertes.fr" in
  match get_prop "core" o with
  | VStr "hal" =>
      Ok (host +:+ "/solr/hal/api/selectall?wt=json&q=" +:+ encodeURIComponent query)
  | core =>
      let* path := if truthy core then ToString core else Ok "search" in
      Ok (host +:+ "/" +:+ path +:+ "/?wt=json&q=" +:+ encodeURIComponent query)
  end.

(** Lines 141-145: [fields] is an alias of [fl]. *)
Definition alias_fields (o : object) : object :=
  if truthy (get_prop "fields" o)
  then delete_prop "fields" (set_prop "fl" (get_prop "fields" o) o)
  else o.

(** [fl] as lines 147-149 rewrite it: an array becomes its elements joined
    with commas, anything else stays. *)
Definition joined (v : value) : result value :=
  match v with
  | VArr elems => let* text := ToString (VArr elems) in Ok (VStr text)
  | _ => Ok v
  end.

Definition join_fl (o : object) : result object :=
  match get_prop "fl" o with
  | VArr elems =>
      let* fl := joined (VArr elems) in
      Ok (set_prop "fl" fl o)
  | _ => Ok o
  end.

(** A body of the shape the backend answers with. *)
Definition solr_result (docs : list value) (numFound : Z) (mark : string) : value :=
  VObj [("response", VObj [("numFound", VNum numFound); ("docs", VArr docs)]);
        ("nextCursorMark", VStr mark)].

(** Lines 151-155. *)
Definition option_fragment (kv : string * value) : result string :=
  let* text := ToString (snd kv) in
  Ok ("&" +:+ fst kv +:+ "=" +:+ text).

Definition option_fragments (o : object) : result (list string) :=
  mapM option_fragment (filter (fun kv => fst kv <> "core") o).

(** The two handlers of lines 156-162; an exception of the first reaches
    the second.  The message reads [response.statusCode], a field the
    response does not have, hence the text [undefined] in it. *)
Definition query_then (callback : continuation) (response : http_response)
  : result (list call) :=
  if negb (status response =? 200)
  then callback (Some (Error "unexpected status code : undefined")) VUndefined
  else callback None (data response).

Definition query_settle (callback : continuation) (o : outcome)
  : result (list call) :=
  match o with
  | Fulfilled response =>
      match query_then callback response with
      | Ok calls => Ok calls
      | Throw e => callback (Some e) VUndefined
      end
  | Rejected e => callback (Some e) VUndefined
  end.

(** [exports.query], on the options object at [l] once the arguments are
    sorted out: the request issued, or the exception raised, and the heap
    as it is left.  An exception leaves the object as the statements before
    it have made it.  [options.hasOwnProperty] is a method call: an own
    property of that name (no function here) makes it raise. *)
Definition query_at (search : value) (l : loc) (callback : continuation)
    (h : heap) : result request * heap :=
  match query_text search with
  | Throw e => (Throw e, h)
  | Ok query =>
      if has_own "hasOwnProperty" (load l h) then (Throw TypeError, h) else
      let '(proxy, o) := take_proxy (load l h) in
      match base_url o query with
      | Throw e => (Throw e, <[l := o]> h)
      | Ok u =>
          let o := alias_fields o in
          match join_fl o with
          | Throw e => (Throw e, <[l := o]> h)
          | Ok o =>
              match option_fragments o with
              | Throw e => (Throw e, <[l := o]> h)
              | Ok fragments =>
                  (Ok (Request (u +:+ String.concat "" fragments) proxy
                               (query_settle callback)),
                   <[l := o]> h)
              end
          end
      end
  end.

Definition query_k (search : value) (options : arg) (callback : continuation)
    (h : heap) : result request * heap :=
  let '(l, callback, h) := normalize options callback h in
  query_at search l callback h.

Definition query (search : value) (options : arg) (callback : fn) (h : heap)
  : result request * heap :=
  query_k search options (user callback) h.

Definition request_url (r : result request * heap) : option string :=
  match fst r with
  | Ok req => Some (url req)
  | Throw _ => None
  end.

(** [e.p] on a value that may be [null] or [undefined]. *)
Definition member (p : string) (v : value) : result value :=
  match v with
  | VUndefined | VNull => Throw TypeError
  | VObj o => Ok (get_prop p o)
  | _ => Ok VUndefined
  end.

(** The callback [find] hands to [query]. *)
Definition find_callback (callback : continuation) : continuation :=
  fun err result =>
    match err with
    | Some e => callback (Some e) VUndefined
    | None =>
        let* response := member "response" result in
        match (if truthy response then member "docs" response else Ok VUndefined) with
        | Throw e => Throw e
        | Ok (VArr docs) => callback None (VArr docs)
        | Ok _ => callback (Some (Error "unexpected result, documents not found")) VUndefined
        end
    end.

(** [exports.find] *)
Definition find (search : value) (options : arg) (callback : fn) (h : heap)
  : result request * heap :=
  match options with
  | ArgFunction f =>
      let '(l, h') := alloc [] h in
      query_k search (ArgObject l) (find_callback (user f)) h'
  | _ => query_k search options (find_callback (user callback)) h
  end.

(** The callback [findOne] hands to [query]. *)
Definition findOne_callback (callback : continuation) : continuation :=
  fun err result =>
    match err with
    | Some e => callback (Some e) VUndefined
    | None =>
        let* response := member "response" result in
        match (if truthy response then member "docs" response else Ok VUndefined) with
        | Throw e => Throw e
        | Ok (VArr [doc]) => callback None doc
        | Ok _ => callback (Some (Error "unexpected result, documents not found")) VUndefined
        end
    end.

(** [exports.findOne] *)
Definition findOne (search : value) (options : arg) (callback : fn) (h : heap)
  : result request * heap :=
  let '(l, callback, h) := normalize options (user callback) h in
  let h := <[l := set_prop "rows" (VNum 1) (load l h)]> h in
  query_k search (ArgObject l) (findOne_callback callback) h.

(** *** Callbacks that may throw *)

(** A caller's callback that may throw: its name and, for the arguments it
    is called with, the exception it raises, if it raises one (an error
    object, as everything thrown here is). *)
Record handler : Type := Handler {
  handler_fn : fn;
  handler_throws : option error -> value -> option error
}.

(** A callback that never throws. *)
Definition quiet (f : fn) : handler := Handler f (fun _ _ => None).

(** What running a handler of the library does: the calls of the caller's
    callback it makes, in order, and the exception that leaves it, if any. *)
Definition trace : Type := list call * option error.

Definition callable : Type := option error -> value -> trace.

(** [callback(err, result)] on a caller's callback. *)
Definition invoke (f : handler) : callable :=
  fun err res => ([Call (handler_fn f) err res], handler_throws f err res).

(** [promise.then(f).catch(g)] once [f] has run: an exception of [f] is
    handed to [g], an exception of [g] is left unhandled. *)
Definition then_catch (t : trace) (g : error -> trace) : trace :=
  match t with
  | (calls, None) => (calls, None)
  | (calls, Some e) => let '(calls', exn) := g e in (calls ++ calls', exn)
  end.

(** The handlers of lines 156-162 again, exceptions of the callback
    included. *)
Definition query_then_traced (callback : callable) (response : http_response)
  : trace :=
  if negb (status response =? 200)
  then callback (Some (Error "unexpected status code : undefined")) VUndefined
  else callback None (data response).

Definition query_settle_traced (callback : callable) (o : outcome) : trace :=
  match o with
  | Fulfilled response =>
      then_catch (query_then_traced callback response)
                 (fun e => callback (Some e) VUndefined)
  | Rejected e => callback (Some e) VUndefined
  end.

(** The callback [find] hands to [query], lines 72-80. *)
Definition find_callback_traced (callback : callable) : callable :=
  fun err result =>
    match err with
    | Some e => callback (Some e) VUndefined
    | None =>
        match member "response" result with
        | Throw e => ([], Some e)
        | Ok response =>
            match (if truthy response then member "docs" response else Ok VUndefined) with
            | Throw e => ([], Some e)
            | Ok (VArr docs) => callback None (VArr docs)
            | Ok _ =>
                callback (Some (Error "unexpected result, documents not found"))
                         VUndefined
            end
        end
    end.

End Api.

(** ** The cursor stream *)

Module Stream.

(** What the stream does to its [Readable] base, in order:
    [push(doc)], [push(null)] and [emit('error', e)]. *)
Inductive signal : Type :=
| Push (doc : value)
| PushNull
| EmitError (e : error).

(** The fields of an [ApiHalStream]; [params] is the object it was given. *)
Record ApiHalStream : Type := MkStream {
  reading : bool;
  counter : Z;
  urlBase : string;
  params : loc
}.

(** The body of a successful response, [response.data]. *)
Record page : Type := Page {
  docs : list value;
  numFound : Z;
  nextCursorMark : string
}.

(** One stream with its surroundings: the heap, the calls made on the
    [Readable] base, every [axios.get(url)] made so far, oldest first, and
    those of them whose promise is not settled yet. *)
Record world : Type := World {
  self : ApiHalStream;
  store : heap;
  signals : list signal;
  issued : list string;
  pending : list string
}.

(** [new ApiHalStream(options)]; the default argument is a fresh [{q: '*'}]. *)
Definition constructor (options : option loc) (h : heap) : world :=
  let '(l, h) :=
    match options with
    | Some l => (l, h)
    | None => alloc [("q", VStr "*")] h
    end in
  let o := load l h in
  let o := set_prop "sort" (VStr "docid asc") o in
  let o := set_prop "cursorMark" (VStr "*") o in
  let o := set_prop "rows" (VNum 1000) o in
  World (MkStream false 0 "http://api.archives-ouvertes.fr/search" l)
        (<[l := o]> h) [] [] [].

(** [`${self.urlBase}/?${querystring.stringify(self.params)}`] *)
Definition page_url (w : world) : string :=
  urlBase (self w) +:+ "/?" +:+ stringify (load (params (self w)) (store w)).

(** [getMoreUntilDone(url)]: the request leaves, the handlers run later. *)
Definition getMoreUntilDone (u : string) (w : world) : world :=
  World (self w) (store w) (signals w) (issued w ++ [u]) (pending w ++ [u]).

(** [_read()] *)
Definition _read (w : world) : world :=
  if reading (self w) then w
  else
    let s := self w in
    let w := World (MkStream true (counter s) (urlBase s) (params s))
                   (store w) (signals w) (issued w) (pending w) in
    getMoreUntilDone (page_url w) w.

(** [self.counter++; self.push(doc)] for each document of the page. *)
Fixpoint push_docs (ds : list value) (w : world) : world :=
  match ds with
  | [] => w
  | doc :: rest =>
      let s := self w in
      push_docs rest
        (World (MkStream (reading s) (counter s + 1) (urlBase s) (params s))
               (store w) (signals w ++ [Push doc]) (issued w) (pending w))
  end.

(** The rest of the [then] handler, lines 194-202. *)
Definition next_or_end (p : page) (w : world) : world :=
  let s := self w in
  if counter s <? numFound p then
    let o := set_prop "cursorMark" (VStr (nextCursorMark p)) (load (params s) (store w)) in
    let w := World s (<[params s := o]> (store w)) (signals w) (issued w) (pending w) in
    getMoreUntilDone (page_url w) w
  else
    World (MkStream false 0 (urlBase s) (params s))
          (store w) (signals w ++ [PushNull]) (issued w) (pending w).

Definition on_fulfilled (p : page) (w : world) : world :=
  next_or_end p (push_docs (docs p) w).

(** The [catch] handler. *)
Definition on_rejected (e : error) (w : world) : world :=
  World (self w) (store w) (signals w ++ [EmitError e]) (issued w) (pending w).

(** What can happen to a stream: the consumer's side calls [_read], or the
    oldest pending request is answered. *)
Inductive event : Type :=
| Pull
| Resolve (p : page)
| Reject (e : error).

Definition settled (w : world) : option world :=
  match pending w with
  | [] => None
  | _ :: rest => Some (World (self w) (store w) (signals w) (issued w) rest)
  end.

(** One event; [None] when a response is delivered while nothing is pending. *)
Definition step (e : event) (w : world) : option world :=
  match e with
  | Pull => Some (_read w)
  | Resolve p => on_fulfilled p <$> settled w
  | Reject err => on_rejected err <$> settled w
  end.

Fixpoint run (es : list event) (w : world) : option world :=
  match es with
  | [] => Some w
  | e :: rest =>
      match step e w with
      | Some w' => run rest w'
      | None => None
      end
  end.

(** The documents delivered so far, in order. *)
Definition emitted (w : world) : list value :=
  omap (fun s => match s with Push d => Some d | _ => None end) (signals w).

Definition ended (w : world) : bool :=
  existsb (fun s => match s with PushNull => true | _ => false end) (signals w).

Definition errors (w : world) : list error :=
  omap (fun s => match s with EmitError e => Some e | _ => None end) (signals w).

(** The events of a trace that answer a request. *)
Definition is_response (e : event) : bool :=
  match e with
  | Pull => false
  | Resolve _ | Reject _ => true
  end.

Definition responses (es : list event) : list event :=
  List.filter is_response es.

(** Every page of the list leaves the counter below the total it reports,
    the counter being [c] before the first of them. *)
Fixpoint continues (c : Z) (pages : list page) : bool :=
  match pages with
  | [] => true
  | p :: rest =>
      let c' := c + Z.of_nat (length (docs p)) in
      (c' <? numFound p) && continues c' rest
  end.

Definition all_docs (pages : list page) : list value :=
  concat (map docs pages).

(** The number of documents pushed since the last end-of-data, [c] being
    the number before the first signal of the list. *)
Fixpoint tally (c : nat) (sg : list signal) : nat :=
  match sg with
  | [] => c
  | Push _ :: rest => tally (S c) rest
  | PushNull :: rest => tally 0 rest
  | EmitError _ :: rest => tally c rest
  end.

(** The [key=value] fields of the query string of the next request. *)
Definition page_fields (w : world) : list string :=
  concat (map stringify_field (load (params (self w)) (store w))).

(** At most one request is pending, and only while the guard is set. *)
Definition single_flight (w : world) : Prop :=
  (length (pending w) <= 1)%nat /\ (pending w <> [] -> reading (self w) = true).

End Stream.

(** ** Induction on values *)

Section ValueInduction.
Variable P : value -> Prop.
Hypothesis Hundefined : P VUndefined.
Hypothesis Hnull : P VNull.
Hypothesis Hbool : forall b, P (VBool b).
Hypothesis Hnum : forall n, P (VNum n).
Hypothesis Hstr : forall s, P (VStr s).
Hypothesis Harr : forall elems, Forall P elems -> P (VArr elems).
Hypothesis Hobj : forall props, Forall (fun kv => P (snd kv)) props -> P (VObj props).

Fixpoint value_nested_ind (v : value) : P v :=
  match v with
  | VUndefined => Hundefined
  | VNull => Hnull
  | VBool b => Hbool b
  | VNum n => Hnum n
  | VStr s => Hstr s
  | VArr elems =>
      Harr elems
        ((fix all (l : list value) : Forall P l :=
            match l with
            | [] => @List.Forall_nil _ P
            | x :: rest => @List.Forall_cons _ P x rest (value_nested_ind x) (all rest)
            end) elems)
  | VObj props =>
      Hobj props
        ((fix all (l : list (string * value)) : Forall (fun kv => P (snd kv)) l :=
            match l with
            | [] => @List.Forall_nil _ _
            | (k, x) :: rest =>
                @List.Forall_cons _ (fun kv => P (snd kv)) (k, x) rest (value_nested_ind x) (all rest)
            end) props)
  end.
End ValueInduction.

(** * Properties *)

(** ** Results *)

Lemma bind_Ok {A B} (m : result A) (k : A -> result B) b :
  bind m k = Ok b <-> exists a, m = Ok a /\ k a = Ok b.
Proof.
  destruct m as [a|e]; simpl; split.
  - intros Hk. by exists a.
  - intros (a' & Ha & Hk). by injection Ha as ->.
  - discriminate.
  - intros (a' & Ha & _). discriminate.
Qed.

Lemma bind_Throw {A B} (m : result A) (k : A -> result B) e :
  bind m k = Throw e <-> m = Throw e \/ exists a, m = Ok a /\ k a = Throw e.
Proof.
  destruct m as [a|e']; simpl; split.
  - intros Hk. right. by exists a.
  - intros [H | (a' & Ha & Hk)]; [discriminate|]. by injection Ha as ->.
  - intros H. left. by injection H as ->.
  - intros [H | (a' & Ha & _)]; [by injection H as -> | discriminate].
Qed.

Lemma throws_Throw {A} (e : error) : throws (@Throw A e).
Proof. by exists e. Qed.

#[local] Hint Resolve throws_Throw : core.

(** ** The compiler *)

Section CompilerFacts.
Import Compiler.

Lemma for_in_body_merge rec st p v :
  for_in_body rec st p v = let* c := contribution rec p v in Ok (merge st c).
Proof.
  destruct st as [parts negation]. unfold contribution, for_in_body, merge.
  repeat case_match; simpl;
    repeat match goal with
           | |- context [bind ?m _] => destruct m; simpl
           end; try reflexivity;
    repeat case_match; simpl; rewrite ?app_nil_r; reflexivity.
Qed.

Lemma contribution_negation rec p v ps n :
  contribution rec p v = Ok (ps, Some n) -> p = "$not".
Proof.
  unfold contribution, for_in_body.
  destruct (String.eqb_spec p "$or"); [intros (s & _ & H)%bind_Ok; congruence|].
  destruct (String.eqb_spec p "$and"); [intros (s & _ & H)%bind_Ok; congruence|].
  destruct (String.eqb_spec p "$not"); [done|].
  intros (s & _ & H)%bind_Ok; congruence.
Qed.

Lemma for_in_cons rec p v rest st :
  for_in rec ((p, v) :: rest) st =
  let* st' := for_in_body rec st p v in for_in rec rest st'.
Proof. reflexivity. Qed.

Lemma buildQuery_op_obj props operator :
  buildQuery_op (VObj props) operator =
  let* st := for_in buildQuery_op props ([], None) in Ok (combine operator st).
Proof. reflexivity. Qed.

Lemma for_in_field rec p v st :
  reserved p = false ->
  for_in_body rec st p v =
  let* text := toString v in Ok (fst st ++ [p +:+ ":" +:+ text], snd st).
Proof.
  unfold reserved, for_in_body. destruct st as [parts negation].
  intros H. apply orb_false_elim in H as [H Hnot].
  apply orb_false_elim in H as [Hor Hand]. by rewrite Hor, Hand, Hnot.
Qed.

Lemma mapM_Throw {A B} (f : A -> result B) xs e :
  mapM f xs = Throw e -> exists x, In x xs /\ f x = Throw e.
Proof.
  induction xs as [|x rest IH]; [done|].
  cbn [mapM]. intros [Hx | (y & _ & [Hrest | (ys & _ & Hys)]%bind_Throw)]%bind_Throw.
  - exists x. split; [by left | done].
  - destruct (IH Hrest) as (x' & Hin & Hx'). exists x'. split; [by right | done].
  - done.
Qed.

Lemma mapM_Ok_In {A B} (f : A -> result B) xs ys x :
  mapM f xs = Ok ys -> In x xs -> exists y, f x = Ok y /\ In y ys.
Proof.
  revert ys. induction xs as [|x' rest IH]; intros ys; [done|].
  cbn [mapM]. intros (y & Hy & (ys' & Hys & Heq)%bind_Ok)%bind_Ok [-> | Hin].
  - injection Heq as <-. exists y. split; [done | by left].
  - injection Heq as <-. destruct (IH ys' Hys Hin) as (y' & Hy' & Hin').
    exists y'. split; [done | by right].
Qed.

(** A conversion to text raises nothing but a [TypeError]. *)
Lemma ToString_TypeError v : forall e, ToString v = Throw e -> e = TypeError.
Proof.
  induction v as [| | | | s | elems IH | props IH] using value_nested_ind;
    intros e; try discriminate.
  - by destruct b.
  - cbn [ToString]. intros [H | (texts & _ & H)]%bind_Throw; [|done].
    apply mapM_Throw in H as (x & Hin & Hx).
    rewrite Forall_forall in IH. apply list_elem_of_In in Hin.
    destruct x; try discriminate; by apply (IH _ Hin).
  - cbn [ToString]. destruct (has_own "toString" props); congruence.
Qed.

Lemma toString_TypeError v e : toString v = Throw e -> e = TypeError.
Proof. destruct v; cbn [toString]; try congruence; apply ToString_TypeError. Qed.

Lemma for_in_body_Throw rec st p v e :
  for_in_body rec st p v = Throw e ->
  (exists op, rec v op = Throw e) \/ e = TypeError.
Proof.
  rewrite for_in_body_merge. intros [Hc | (c & _ & Hc)]%bind_Throw; [|done].
  revert Hc. unfold contribution, for_in_body.
  repeat case_match;
    (intros [Hq | (c & _ & Hq)]%bind_Throw; [|done]); eauto.
  right. by apply toString_TypeError in Hq.
Qed.

Lemma for_in_Throw rec props st e :
  for_in rec props st = Throw e ->
  exists p v st', In (p, v) props /\ for_in_body rec st' p v = Throw e.
Proof.
  revert st. induction props as [|[p v] rest IH]; intros st; [done|].
  rewrite for_in_cons. intros [H | (st' & _ & H)]%bind_Throw.
  - exists p, v, st. split; [by left | done].
  - destruct (IH _ H) as (p' & v' & st'' & Hin & Hb).
    exists p', v', st''. split; [by right | done].
Qed.

Lemma forEach_Throw rec elems parts e :
  forEach rec elems parts = Throw e ->
  exists x, In x elems /\ rec x "AND" = Throw e.
Proof.
  revert parts. induction elems as [|x rest IH]; intros parts; [done|].
  simpl. intros [H | (part & _ & H)]%bind_Throw.
  - exists x. split; [by left | done].
  - destruct (IH _ H) as (y & Hin & Hy). exists y. split; [by right | done].
Qed.

(** A property whose step throws whatever the state makes the loop throw. *)
Lemma for_in_throws_at rec props st p v :
  In (p, v) props ->
  (forall st', throws (for_in_body rec st' p v)) ->
  throws (for_in rec props st).
Proof.
  intros Hin Hthrow. revert st.
  induction props as [|[p' v'] rest IH]; intros st; [done|].
  rewrite for_in_cons.
  destruct (for_in_body rec st p' v') as [st'|e] eqn:Hb; simpl; [|done].
  destruct Hin as [Heq | Hin].
  - injection Heq as -> ->. destruct (Hthrow st) as [e He]. congruence.
  - by apply IH.
Qed.

Lemma nat_to_string_not_reserved i : reserved (nat_to_string i) = false.
Proof.
  unfold nat_to_string, NilZero.string_of_uint.
  destruct (Nat.to_uint i); reflexivity.
Qed.

(** On the indices of a string the loop never makes the recursive call. *)
Lemma for_in_string_props rec1 rec2 s i st :
  for_in rec1 (string_props_from i s) st = for_in rec2 (string_props_from i s) st.
Proof.
  revert i st. induction s as [|c rest IH]; intros i st; [done|].
  simpl string_props_from. rewrite !for_in_cons.
  rewrite !for_in_field by apply nat_to_string_not_reserved.
  simpl. apply IH.
Qed.

(** The compiler raises nothing but the [TypeError] of [toString]. *)
Lemma buildQuery_op_TypeError search :
  forall operator e, buildQuery_op search operator = Throw e -> e = TypeError.
Proof.
  induction search as [| | | | s | elems IH | props IH] using value_nested_ind;
    intros operator e; simpl; try discriminate.
  - intros [H | (st & _ & H)]%bind_Throw; [|done].
    apply for_in_Throw in H as (p & v & st' & _ & H).
    by apply for_in_body_Throw in H as [[op H] | H].
  - intros [H | (st & _ & H)]%bind_Throw; [|done].
    apply forEach_Throw in H as (x & Hin & H).
    rewrite Forall_forall in IH. eapply IH; [|done]. by apply list_elem_of_In.
  - intros [H | (st & _ & H)]%bind_Throw; [|done].
    apply for_in_Throw in H as (p & v & st' & Hin & H).
    apply for_in_body_Throw in H as [[op H] | H]; [|done].
    rewrite Forall_forall in IH.
    eapply (IH (p, v)); [|done]. by apply list_elem_of_In.
Qed.

Lemma same_terms_merge st1 st2 c :
  same_terms st1 st2 -> same_terms (merge st1 c) (merge st2 c).
Proof.
  intros [Hp Hn]. split; simpl.
  - by apply Permutation_app_tail.
  - by rewrite Hn.
Qed.

Lemma same_outcome_trans r1 r2 r3 :
  same_outcome r1 r2 -> same_outcome r2 r3 -> same_outcome r1 r3.
Proof.
  destruct r1, r2, r3; simpl; try done.
  intros [Hp1 Hn1] [Hp2 Hn2]. split; [by etrans | congruence].
Qed.

Lemma for_in_cons_merge rec p v rest st :
  for_in rec ((p, v) :: rest) st =
  match contribution rec p v with
  | Ok c => for_in rec rest (merge st c)
  | Throw e => Throw e
  end.
Proof.
  rewrite for_in_cons, for_in_body_merge. by destruct (contribution rec p v).
Qed.

Lemma for_in_respects rec props st1 st2 :
  same_terms st1 st2 ->
  same_outcome (for_in rec props st1) (for_in rec props st2).
Proof.
  revert st1 st2. induction props as [|[p v] rest IH]; intros st1 st2 Hst.
  - done.
  - rewrite !for_in_cons_merge.
    destruct (contribution rec p v) as [c|e]; [|done].
    by apply IH, same_terms_merge.
Qed.

(** Two properties of different names can be visited in either order. *)
Lemma for_in_body_swap rec p1 v1 p2 v2 rest st :
  p1 <> p2 ->
  same_outcome (for_in rec ((p1, v1) :: (p2, v2) :: rest) st)
               (for_in rec ((p2, v2) :: (p1, v1) :: rest) st).
Proof.
  intros Hne. rewrite !for_in_cons_merge.
  destruct (contribution rec p1 v1) as [[ps1 n1]|e1] eqn:H1;
    destruct (contribution rec p2 v2) as [[ps2 n2]|e2] eqn:H2;
    rewrite ?for_in_cons_merge, ?H1, ?H2; try done.
  apply for_in_respects. destruct st as [parts negation].
  split; simpl.
  - rewrite <- !app_assoc. apply Permutation_app_head, Permutation_app_comm.
  - destruct n1 as [n1|], n2 as [n2|]; try done.
    apply contribution_negation in H1, H2. congruence.
Qed.

Lemma for_in_permutation rec props props' :
  Permutation props props' -> wf_props props ->
  forall st, same_outcome (for_in rec props st) (for_in rec props' st).
Proof.
  unfold wf_props.
  induction 1 as [|[p v] l l' Hperm IH|[p1 v1] [p2 v2] l|l l' l'' H1 IH1 H2 IH2];
    intros Hwf st.
  - done.
  - rewrite !for_in_cons.
    destruct (for_in_body rec st p v) as [st'|e]; simpl; [|done].
    apply IH. simpl in Hwf. by apply NoDup_cons in Hwf as [_ Hwf].
  - apply for_in_body_swap. simpl in Hwf.
    apply NoDup_cons in Hwf as [Hnotin _]. intros ->. apply Hnotin. by left.
  - eapply same_outcome_trans; [by apply IH1|]. apply IH2.
    assert (Hp : Permutation (map fst l) (map fst l')) by (by apply Permutation_map).
    by rewrite <- Hp.
Qed.
End CompilerFacts.

Section CompilerClaims.
Import Compiler.

(** C4: [compile({})] is the empty string, [compile({a: 1})] is ["a:1"]
    (one part and no negation: the part comes back as it is, without
    parentheses) and [compile({a: 1, b: 2})] is ["(a:1) AND (b:2)"]; when
    the compiled text of a descriptor is empty, [query] puts the match-all
    term ["*:*"] in its place. *)
Theorem compile_conjunction_examples :
  buildQuery (VObj []) None = Ok ""
  /\ buildQuery (VObj [("a", VNum 1)]) None = Ok "a:1"
  /\ buildQuery (VObj [("a", VNum 1); ("b", VNum 2)]) None = Ok "(a:1) AND (b:2)"
  /\ (forall operator part, combine operator ([part], None) = part)
  /\ (forall search,
        Api.query_text search =
        match search with
        | VStr s => Ok s
        | _ =>
            match buildQuery search (Some "AND") with
            | Ok "" => Ok "*:*"
            | other => other
            end
        end)
  /\ Api.query_text (VObj []) = Ok "*:*"
  /\ Api.request_url (Api.query (VObj []) Api.ArgUndefined 0%nat ∅)
     = Some "http://api.archives-ouvertes.fr/search/?wt=json&q=*%3A*".
Proof.
  repeat split; try reflexivity.
  intros search. unfold Api.query_text.
  destruct search; try reflexivity;
    match goal with
    | |- context [buildQuery ?v ?o] => destruct (buildQuery v o) as [[|c t]|e]
    end; reflexivity.
Qed.

(** C5: [compile({"$or": [{a: 1}, {b: 2}]})] is ["(a:1) OR (b:2)"],
    [compile({"$not": {a: 1}})] is ["NOT(a:1)"] and
    [compile({"$not": {a: 1}, b: 2})] is ["NOT(a:1) AND (b:2)"]: the
    negation is kept apart from the parts and comes first, before the
    parenthesized parts. *)
Theorem compile_or_not_examples :
  buildQuery (VObj [("$or", VArr [VObj [("a", VNum 1)]; VObj [("b", VNum 2)]])]) None
  = Ok "(a:1) OR (b:2)"
  /\ buildQuery (VObj [("$not", VObj [("a", VNum 1)])]) None = Ok "NOT(a:1)"
  /\ buildQuery (VObj [("$not", VObj [("a", VNum 1)]); ("b", VNum 2)]) None
     = Ok "NOT(a:1) AND (b:2)"
  /\ buildQuery (VObj [("b", VNum 2); ("$not", VObj [("a", VNum 1)])]) None
     = Ok "NOT(a:1) AND (b:2)"
  /\ (forall operator neg first others,
        combine operator (first :: others, Some neg) =
        (neg +:+ " " +:+ operator +:+ " (")
        +:+ String.concat (") " +:+ operator +:+ " (") (first :: others) +:+ ")").
Proof.
  repeat split; reflexivity.
Qed.

(** C1 as stated fails: a plain object is not a scalar, yet the compiler
    returns normally with the object written as [[object Object]]. *)
Lemma plain_object_is_coerced :
  scalar (VObj [("b", VNum 1)]) = false
  /\ buildQuery (VObj [("a", VObj [("b", VNum 1)])]) None = Ok "a:[object Object]"
  /\ ~ throws (buildQuery (VObj [("a", VObj [("b", VNum 1)])]) None).
Proof.
  split; [reflexivity|]. split; [reflexivity|].
  intros [e He]. discriminate He.
Qed.

(** C9: reordering the keys of a mapping (an object has no two keys of
    one name) leaves the parts that are combined the same up to their
    order, and the negation clause the same; either both orders raise or
    neither does, and the compiled text of the reordered mapping combines
    that permutation of the parts with that negation. *)
Theorem reordering_keys_keeps_terms props props' operator :
  wf_props props ->
  Permutation props props' ->
  same_outcome (for_in buildQuery_op props ([], None))
               (for_in buildQuery_op props' ([], None))
  /\ (forall st,
        for_in buildQuery_op props ([], None) = Ok st ->
        buildQuery_op (VObj props) operator = Ok (combine operator st)
        /\ exists st',
            same_terms st st'
            /\ buildQuery_op (VObj props') operator = Ok (combine operator st')).
Proof.
  intros Hwf Hperm.
  pose proof (for_in_permutation buildQuery_op props props' Hperm Hwf ([], None)) as H.
  split; [done|]. intros st Hst. rewrite !buildQuery_op_obj.
  rewrite Hst in *. split; [done|].
  destruct (for_in buildQuery_op props' ([], None)) as [st'|e]; [|done].
  by exists st'.
Qed.

Lemma reordering_keys_keeps_terms_witness :
  same_outcome
    (for_in buildQuery_op
       [("a", VNum 1); ("$not", VObj [("b", VNum 2)]); ("c", VNum 3)] ([], None))
    (for_in buildQuery_op
       [("c", VNum 3); ("a", VNum 1); ("$not", VObj [("b", VNum 2)])] ([], None)).
Proof.
  apply (reordering_keys_keeps_terms
           [("a", VNum 1); ("$not", VObj [("b", VNum 2)]); ("c", VNum 3)]
           [("c", VNum 3); ("a", VNum 1); ("$not", VObj [("b", VNum 2)])] "AND").
  - unfold wf_props. simpl. apply NoDup_ListNoDup.
    repeat constructor; simpl; intuition discriminate.
  - apply Permutation_sym. apply (Permutation_cons_app [_; _] []). reflexivity.
Defined.
End CompilerClaims.

(** ** Objects *)

Section ObjectFacts.
Implicit Types (k : string) (v : value) (o : object).

Lemma get_prop_set_eq k v o : get_prop k (set_prop k v o) = v.
Proof.
  induction o as [|[k' v'] rest IH]; simpl.
  - by rewrite String.eqb_refl.
  - destruct (String.eqb_spec k' k) as [->|Hne]; simpl.
    + by rewrite String.eqb_refl.
    + by destruct (String.eqb_spec k' k).
Qed.

Lemma get_prop_set_ne k k' v o :
  k <> k' -> get_prop k' (set_prop k v o) = get_prop k' o.
Proof.
  intros Hne. induction o as [|[k0 v0] rest IH]; simpl.
  - by destruct (String.eqb_spec k k').
  - destruct (String.eqb_spec k0 k) as [->|Hk]; simpl.
    + by destruct (String.eqb_spec k k').
    + by rewrite IH.
Qed.

Lemma delete_prop_cons k k' v o :
  delete_prop k ((k', v) :: o) =
  if String.eqb k' k then delete_prop k o else (k', v) :: delete_prop k o.
Proof.
  unfold delete_prop. rewrite filter_cons. simpl.
  destruct (String.eqb_spec k' k); by case_decide.
Qed.

Lemma get_prop_delete_ne k k' o :
  k <> k' -> get_prop k' (delete_prop k o) = get_prop k' o.
Proof.
  intros Hne. induction o as [|[k0 v0] rest IH]; [done|].
  rewrite delete_prop_cons.
  destruct (String.eqb_spec k0 k) as [->|Hk]; simpl.
  - rewrite IH. by destruct (String.eqb_spec k k').
  - by rewrite IH.
Qed.

Lemma has_own_delete k o : has_own k (delete_prop k o) = false.
Proof.
  induction o as [|[k0 v0] rest IH]; [done|].
  rewrite delete_prop_cons.
  destruct (String.eqb_spec k0 k) as [->|Hk]; [done|].
  simpl. by destruct (String.eqb_spec k0 k).
Qed.

Lemma has_own_delete_ne k k' o :
  k <> k' -> has_own k' (delete_prop k o) = has_own k' o.
Proof.
  intros Hne. induction o as [|[k0 v0] rest IH]; [done|].
  rewrite delete_prop_cons.
  destruct (String.eqb_spec k0 k) as [->|Hk]; simpl.
  - rewrite IH. by destruct (String.eqb_spec k k').
  - by rewrite IH.
Qed.

Lemma has_own_set_ne k k' v o :
  k <> k' -> has_own k' (set_prop k v o) = has_own k' o.
Proof.
  intros Hne. induction o as [|[k0 v0] rest IH]; simpl.
  - by destruct (String.eqb_spec k k').
  - destruct (String.eqb_spec k0 k) as [->|Hk]; simpl.
    + by destruct (String.eqb_spec k k').
    + by rewrite IH.
Qed.

Lemma get_prop_In k o :
  get_prop k o <> VUndefined -> In (k, get_prop k o) o.
Proof.
  induction o as [|[k0 v0] rest IH]; [done|]. simpl.
  destruct (String.eqb_spec k0 k) as [->|Hk].
  - by left.
  - intros H. right. by apply IH.
Qed.

Lemma load_insert l o (h : heap) : load l (<[l := o]> h) = o.
Proof. unfold load. by rewrite lookup_insert_eq. Qed.
End ObjectFacts.

(** ** The single-shot operations *)

Section ApiFacts.
Import Api.

Lemma get_prop_join_fl k o o' :
  join_fl o = Ok o' -> k <> "fl" -> get_prop k o' = get_prop k o.
Proof.
  unfold join_fl. intros H Hk.
  destruct (get_prop "fl" o); try by injection H as <-.
  apply bind_Ok in H as (fl & _ & H). injection H as <-.
  by rewrite get_prop_set_ne.
Qed.

Lemma has_own_join_fl k o o' :
  join_fl o = Ok o' -> k <> "fl" -> has_own k o' = has_own k o.
Proof.
  unfold join_fl. intros H Hk.
  destruct (get_prop "fl" o); try by injection H as <-.
  apply bind_Ok in H as (fl & _ & H). injection H as <-.
  by rewrite has_own_set_ne.
Qed.

Lemma get_prop_fl_join_fl o o' :
  join_fl o = Ok o' -> joined (get_prop "fl" o) = Ok (get_prop "fl" o').
Proof.
  unfold join_fl. intros H.
  destruct (get_prop "fl" o) eqn:Hfl; try (injection H as <-; by rewrite Hfl).
  apply bind_Ok in H as (fl & Hj & H). injection H as <-.
  by rewrite get_prop_set_eq.
Qed.

Lemma get_prop_alias_fields k o :
  k <> "fl" -> k <> "fields" -> get_prop k (alias_fields o) = get_prop k o.
Proof.
  intros Hfl Hfields. unfold alias_fields.
  destruct (truthy (get_prop "fields" o)); [|done].
  by rewrite get_prop_delete_ne, get_prop_set_ne.
Qed.

Lemma has_own_alias_fields k o :
  k <> "fl" -> k <> "fields" -> has_own k (alias_fields o) = has_own k o.
Proof.
  intros Hfl Hfields. unfold alias_fields.
  destruct (truthy (get_prop "fields" o)); [|done].
  by rewrite has_own_delete_ne, has_own_set_ne.
Qed.

Lemma get_prop_take_proxy k o :
  k <> "proxy" -> get_prop k (snd (take_proxy o)) = get_prop k o.
Proof.
  intros Hk. unfold take_proxy.
  destruct (has_own "proxy" o); [|done]. simpl. by rewrite get_prop_delete_ne.
Qed.

Lemma has_own_take_proxy o : has_own "proxy" (snd (take_proxy o)) = false.
Proof.
  unfold take_proxy. destruct (has_own "proxy" o) eqn:H; [|done].
  apply has_own_delete.
Qed.

Lemma fst_take_proxy o :
  fst (take_proxy o) = if has_own "proxy" o then Some (get_prop "proxy" o) else None.
Proof. unfold take_proxy. by destruct (has_own "proxy" o). Qed.

(** [query] on an object, spelled out on the object it finds at [l]. *)
Lemma query_at_unfold search l k h :
  query_at search l k h =
  match query_text search with
  | Throw e => (Throw e, h)
  | Ok query =>
      if has_own "hasOwnProperty" (load l h) then (Throw TypeError, h) else
      match base_url (snd (take_proxy (load l h))) query with
      | Throw e => (Throw e, <[l := snd (take_proxy (load l h))]> h)
      | Ok u =>
          match join_fl (alias_fields (snd (take_proxy (load l h)))) with
          | Throw e => (Throw e, <[l := alias_fields (snd (take_proxy (load l h)))]> h)
          | Ok o =>
              match option_fragments o with
              | Throw e => (Throw e, <[l := o]> h)
              | Ok fragments =>
                  (Ok (Request (u +:+ String.concat "" fragments)
                               (fst (take_proxy (load l h))) (query_settle k)),
                   <[l := o]> h)
              end
          end
      end
  end.
Proof.
  unfold query_at. destruct (query_text search); [|done].
  destruct (has_own "hasOwnProperty" (load l h)); [done|].
  by destruct (take_proxy (load l h)).
Qed.

Lemma query_k_object search l k h :
  query_k search (ArgObject l) k h = query_at search l k h.
Proof. reflexivity. Qed.

Lemma query_at_Ok search l k h req h' :
  query_at search l k h = (Ok req, h') ->
  exists query u o fragments,
    query_text search = Ok query
    /\ base_url (snd (take_proxy (load l h))) query = Ok u
    /\ join_fl (alias_fields (snd (take_proxy (load l h)))) = Ok o
    /\ option_fragments o = Ok fragments
    /\ req = Request (u +:+ String.concat "" fragments)
                     (fst (take_proxy (load l h))) (query_settle k)
    /\ h' = <[l := o]> h.
Proof.
  rewrite query_at_unfold. intros H.
  destruct (query_text search) as [query|] eqn:Hq; [|done].
  destruct (has_own "hasOwnProperty" (load l h)); [done|].
  destruct (base_url _ query) as [u|] eqn:Hu; [|done].
  destruct (join_fl _) as [o|] eqn:Hj; [|done].
  destruct (option_fragments o) as [fragments|] eqn:Hf; [|done].
  injection H as <- <-. exists query, u, o, fragments. repeat split; done.
Qed.

(** Whatever [query] does, an option other than [proxy], [fields] and [fl]
    is left as it was. *)
Lemma query_at_other_options search l k h key :
  key <> "proxy" -> key <> "fields" -> key <> "fl" ->
  get_prop key (load l (snd (query_at search l k h))) = get_prop key (load l h).
Proof.
  intros Hproxy Hfields Hfl. rewrite query_at_unfold.
  destruct (query_text search) as [query|]; [|done].
  destruct (has_own "hasOwnProperty" (load l h)); [done|].
  destruct (base_url _ query) as [u|]; cbn [snd].
  2: { by rewrite load_insert, get_prop_take_proxy. }
  destruct (join_fl _) as [o|] eqn:Hj; cbn [snd].
  2: { by rewrite load_insert, get_prop_alias_fields, get_prop_take_proxy. }
  assert (get_prop key o = get_prop key (load l h)) as Ho.
  { rewrite (get_prop_join_fl _ _ _ Hj) by done.
    by rewrite get_prop_alias_fields, get_prop_take_proxy. }
  destruct (option_fragments o); cbn [snd]; by rewrite load_insert.
Qed.

Lemma option_fragment_In k v o fragments :
  option_fragments o = Ok fragments ->
  In (k, v) o -> k <> "core" ->
  exists text, ToString v = Ok text /\ In ("&" +:+ k +:+ "=" +:+ text) fragments.
Proof.
  unfold option_fragments. intros Hf Hin Hk.
  destruct (mapM_Ok_In _ _ _ (k, v) Hf) as (y & Hy & Hiny).
  { apply list_elem_of_In, list_elem_of_filter. split; [done|].
    by apply list_elem_of_In. }
  unfold option_fragment in Hy. apply bind_Ok in Hy as (text & Ht & Hy).
  injection Hy as <-. by exists text.
Qed.

Lemma findOne_unfold search options callback h :
  exists l h1,
    findOne search options callback h =
    query_at search l
      (findOne_callback (user match options with ArgFunction f => f | _ => callback end))
      (<[l := set_prop "rows" (VNum 1) (load l h1)]> h1)
    /\ (forall l', options = ArgObject l' -> l = l' /\ h1 = h).
Proof.
  unfold findOne. destruct options as [|f|l]; cbn [normalize].
  - destruct (alloc [] h) as [l h1]. exists l, h1. by split.
  - destruct (alloc [] h) as [l h1]. exists l, h1. by split.
  - exists l, h. split; [done|]. intros l' Heq. by injection Heq as ->.
Qed.

(** The only success [findOne] reports is the single document of a
    well-formed answer; everything else is one call with an error. *)
Lemma findOne_settle cb o :
  exists err res,
    query_settle (findOne_callback (user cb)) o = Ok [Call cb err res]
    /\ (err = None ->
        exists body response,
          o = Fulfilled (Response 200 body)
          /\ member "response" body = Ok response
          /\ member "docs" response = Ok (VArr [res])).
Proof.
  destruct o as [[st body]|e]; simpl; [|by eexists _, _].
  unfold query_then. simpl.
  destruct (Z.eqb_spec st 200) as [->|Hst]; simpl; [|by eexists _, _].
  destruct (member "response" body) as [response|e] eqn:Hr; simpl;
    [|by eexists _, _].
  destruct (truthy response) eqn:Ht; [|by eexists _, _].
  destruct (member "docs" response) as [docs|e] eqn:Hd; simpl;
    [|by eexists _, _].
  destruct docs as [| | | | |[|doc [|doc' rest]]|]; simpl; try by eexists _, _.
  eexists None, doc. split; [done|]. intros _. by exists body, response.
Qed.
End ApiFacts.

Section ApiClaims.
Import Api.

(** C7: [findOne] asks for [rows = 1] (the options object it hands to
    [query] has [rows] equal to 1 and the URL carries [&rows=1]); on an
    answer with no document or with more than one, the callback is called
    with the error "unexpected result, documents not found"; on an answer
    with exactly one document it is called with that document; and
    whatever the outcome of the request the callback is called once, with
    an error unless the answer held exactly one document, never with a
    silent empty success. *)
Theorem findOne_one_document_or_error search options callback h req h' :
  findOne search options callback h = (Ok req, h') ->
  let cb := match options with ArgFunction f => f | _ => callback end in
  (exists l prefix fragments,
      get_prop "rows" (load l h') = VNum 1
      /\ option_fragments (load l h') = Ok fragments
      /\ url req = prefix +:+ String.concat "" fragments
      /\ In "&rows=1" fragments)
  /\ (forall docs numFound mark,
        settle req (Fulfilled (Response 200 (solr_result docs numFound mark))) =
        Ok [match docs with
            | [doc] => Call cb None doc
            | _ => Call cb (Some (Error "unexpected result, documents not found"))
                        VUndefined
            end])
  /\ (forall o,
        exists err res,
          settle req o = Ok [Call cb err res]
          /\ (err = None ->
              exists body response,
                o = Fulfilled (Response 200 body)
                /\ member "response" body = Ok response
                /\ member "docs" response = Ok (VArr [res]))).
Proof.
  intros H cb.
  destruct (findOne_unfold search options callback h) as (l & h1 & Heq & _).
  rewrite Heq in H. fold cb in H.
  pose proof (query_at_other_options search l (findOne_callback (user cb))
                (<[l := set_prop "rows" (VNum 1) (load l h1)]> h1) "rows") as Hrows.
  rewrite H, load_insert, get_prop_set_eq in Hrows. cbn [snd] in Hrows.
  specialize (Hrows ltac:(done) ltac:(done) ltac:(done)).
  apply query_at_Ok in H as (query & u & o & fragments & _ & _ & _ & Hf & -> & ->).
  rewrite load_insert in Hrows.
  split; [|split].
  - exists l, u, fragments. rewrite load_insert.
    split; [done|]. split; [done|]. split; [done|].
    destruct (option_fragment_In "rows" (VNum 1) o fragments Hf) as (text & Ht & Hin).
    + rewrite <- Hrows. apply get_prop_In. by rewrite Hrows.
    + done.
    + by injection Ht as <-.
  - intros docs numFound mark. cbn [settle].
    by destruct docs as [|doc [|doc' rest]].
  - intros o'. cbn [settle]. apply findOne_settle.
Qed.

Lemma findOne_one_document_or_error_witness :
  exists req h',
    findOne (VObj [("docid", VNum 42)]) (ArgFunction 7%nat) 0%nat ∅ = (Ok req, h')
    /\ settle req (Fulfilled (Response 200 (solr_result [] 0 "*")))
       = Ok [Call 7%nat (Some (Error "unexpected result, documents not found")) VUndefined]
    /\ settle req (Fulfilled (Response 200 (solr_result [VStr "d1"; VStr "d2"] 2 "*")))
       = Ok [Call 7%nat (Some (Error "unexpected result, documents not found")) VUndefined]
    /\ settle req (Fulfilled (Response 200 (solr_result [VStr "d1"] 1 "*")))
       = Ok [Call 7%nat None (VStr "d1")].
Proof.
  eexists _, _. split; [reflexivity|].
  pose proof (findOne_one_document_or_error
                (VObj [("docid", VNum 42)]) (ArgFunction 7%nat) 0%nat ∅ _ _ eq_refl)
    as (_ & Hdocs & _).
  split; [exact (Hdocs [] 0 "*")|].
  split; [exact (Hdocs [VStr "d1"; VStr "d2"] 2 "*")|].
  exact (Hdocs [VStr "d1"] 1 "*").
Defined.

(** C10, as the code has it: the operations work on the caller's options
    object itself.  After [findOne] the object has [rows = 1]; after [query]
    it has no [proxy] key (the value went to the request); a [fields] value
    that is truthy has become [fl] and the [fields] key is gone, while a
    falsy one (the empty string, 0, [null]) is left where it was, key and
    value; an array [fl] has been replaced by its elements joined with
    commas; every other option is left as it was.  [find] leaves the heap
    as [query] does; the stream constructor keeps the object it is given as
    its [params] and sets its [sort], [cursorMark] and [rows] to
    ['docid asc'], ['*'] and [1000] whatever they were. *)
Theorem options_mutated_in_place search l callback h :
  get_prop "rows" (load l (snd (findOne search (ArgObject l) callback h))) = VNum 1
  /\ (forall req h',
        query search (ArgObject l) callback h = (Ok req, h') ->
        has_own "proxy" (load l h') = false
        /\ proxy req = (if has_own "proxy" (load l h)
                        then Some (get_prop "proxy" (load l h)) else None)
        /\ (truthy (get_prop "fields" (load l h)) = true ->
            has_own "fields" (load l h') = false
            /\ joined (get_prop "fields" (load l h)) = Ok (get_prop "fl" (load l h')))
        /\ (truthy (get_prop "fields" (load l h)) = false ->
            joined (get_prop "fl" (load l h)) = Ok (get_prop "fl" (load l h'))
            /\ has_own "fields" (load l h') = has_own "fields" (load l h)
            /\ get_prop "fields" (load l h') = get_prop "fields" (load l h))
        /\ (forall elems,
              joined (VArr elems) =
              let* text := ToString (VArr elems) in Ok (VStr text))
        /\ (forall k, k <> "proxy" -> k <> "fields" -> k <> "fl" ->
            get_prop k (load l h') = get_prop k (load l h)))
  /\ snd (find search (ArgObject l) callback h)
     = snd (query search (ArgObject l) callback h)
  /\ (let w := Stream.constructor (Some l) h in
      Stream.params (Stream.self w) = l
      /\ get_prop "sort" (load l (Stream.store w)) = VStr "docid asc"
      /\ get_prop "cursorMark" (load l (Stream.store w)) = VStr "*"
      /\ get_prop "rows" (load l (Stream.store w)) = VNum 1000
      /\ (forall k, k <> "sort" -> k <> "cursorMark" -> k <> "rows" ->
          get_prop k (load l (Stream.store w)) = get_prop k (load l h))).
Proof.
  split; [|split; [|split]].
  - destruct (findOne_unfold search (ArgObject l) callback h) as (l' & h1 & -> & Hl).
    destruct (Hl l eq_refl) as [-> ->].
    rewrite query_at_other_options, load_insert by done. apply get_prop_set_eq.
  - intros req h' H. unfold query in H. rewrite query_k_object in H.
    pose proof (query_at_other_options search l (user callback) h) as Hother.
    rewrite H in Hother. cbn [snd] in Hother.
    apply query_at_Ok in H as (query & u & o & fragments & _ & _ & Hj & _ & -> & ->).
    rewrite load_insert in *. cbn [proxy].
    split.
    { rewrite (has_own_join_fl _ _ _ Hj), has_own_alias_fields by done.
      apply has_own_take_proxy. }
    split; [apply fst_take_proxy|].
    pose proof (get_prop_fl_join_fl _ _ Hj) as Hfl.
    unfold alias_fields in Hj, Hfl.
    rewrite get_prop_take_proxy in Hj, Hfl by done.
    split; [|split; [|split]].
    + intros Ht. rewrite Ht in Hj, Hfl.
      rewrite (has_own_join_fl _ _ _ Hj), has_own_delete by done.
      split; [done|].
      rewrite get_prop_delete_ne, get_prop_set_eq in Hfl by done. exact Hfl.
    + intros Ht. rewrite Ht in Hj, Hfl.
      split; [by rewrite get_prop_take_proxy in Hfl|].
      rewrite (has_own_join_fl _ _ _ Hj), (get_prop_join_fl _ _ _ Hj) by done.
      split; [|by apply get_prop_take_proxy].
      unfold take_proxy. destruct (has_own "proxy" (load l h)); [|done].
      by apply has_own_delete_ne.
    + done.
    + intros k. apply Hother.
  - unfold find, query. by rewrite !query_k_object, !query_at_unfold;
      repeat case_match.
  - cbv zeta.
    change (Stream.store (Stream.constructor (Some l) h))
      with (<[l := set_prop "rows" (VNum 1000)
                      (set_prop "cursorMark" (VStr "*")
                         (set_prop "sort" (VStr "docid asc") (load l h)))]> h).
    rewrite load_insert.
    split; [done|].
    split; [rewrite !get_prop_set_ne by done; apply get_prop_set_eq|].
    split; [rewrite !get_prop_set_ne by done; apply get_prop_set_eq|].
    split; [by rewrite get_prop_set_eq|].
    intros k Hsort Hmark Hrows. by rewrite !get_prop_set_ne by done.
Qed.

Lemma options_mutated_in_place_witness :
  let h : heap :=
    {[ 1%positive := [("proxy", VStr "http://proxy:3128");
                      ("fields", VArr [VStr "docid"; VStr "title_s"]);
                      ("rows", VNum 5)] ]} in
  exists req h',
    query (VObj []) (ArgObject 1%positive) 0%nat h = (Ok req, h')
    /\ has_own "proxy" (load 1%positive h') = false
    /\ proxy req = Some (VStr "http://proxy:3128")
    /\ has_own "fields" (load 1%positive h') = false
    /\ Ok (VStr "docid,title_s") = Ok (get_prop "fl" (load 1%positive h'))
    /\ get_prop "rows" (load 1%positive h') = VNum 5.
Proof.
  intros h. eexists _, _. split; [reflexivity|].
  pose proof (options_mutated_in_place (VObj []) 1%positive 0%nat h)
    as (_ & Hquery & _).
  destruct (Hquery _ _ eq_refl) as (Hproxy & Hreq & Hfields & _ & _ & Hother).
  split; [exact Hproxy|]. split; [exact Hreq|].
  destruct (Hfields eq_refl) as [Hgone Hfl].
  split; [exact Hgone|]. split; [exact Hfl|].
  apply (Hother "rows"); discriminate.
Defined.

(** C10 as stated fails: [query] does not delete a [fields] key whose value
    is the empty string; the key stays in the caller's object and is sent
    as a parameter. *)
Lemma falsy_fields_key_is_kept :
  exists req h',
    query (VObj []) (ArgObject 1%positive) 0%nat
          {[ 1%positive := [("fields", VStr "")] ]} = (Ok req, h')
    /\ has_own "fields" (load 1%positive h') = true
    /\ load 1%positive h' = [("fields", VStr "")]
    /\ url req = "http://api.archives-ouvertes.fr/search/?wt=json&q=*%3A*&fields=".
Proof. eexists _, _. repeat split; reflexivity. Qed.
End ApiClaims.

(** ** The cursor stream *)

Section StreamFacts.
Import Stream.

Lemma push_docs_eq ds w :
  push_docs ds w =
  World (MkStream (reading (self w)) (counter (self w) + Z.of_nat (length ds))
                  (urlBase (self w)) (params (self w)))
        (store w) (signals w ++ map Push ds) (issued w) (pending w).
Proof.
  revert w. induction ds as [|d rest IH]; intros [[r c u l] st sg iss pd].
  - simpl. by rewrite Z.add_0_r, app_nil_r.
  - cbn [push_docs]. rewrite IH. cbn [self store signals issued pending
      reading counter urlBase params length map].
    rewrite <- app_assoc. do 2 f_equal. lia.
Qed.

Lemma _read_reading w : reading (self w) = true -> _read w = w.
Proof. intros H. unfold _read. by rewrite H. Qed.

(** The answer to a page that leaves the counter below the total: its
    documents are pushed and the next request leaves at once. *)
Lemma on_fulfilled_continue p w :
  counter (self w) + Z.of_nat (length (docs p)) < numFound p ->
  exists u h,
    on_fulfilled p w =
    World (MkStream (reading (self w))
                    (counter (self w) + Z.of_nat (length (docs p)))
                    (urlBase (self w)) (params (self w)))
          h (signals w ++ map Push (docs p)) (issued w ++ [u]) (pending w ++ [u]).
Proof.
  intros Hlt. unfold on_fulfilled. rewrite push_docs_eq.
  unfold next_or_end. cbn [self counter].
  apply Z.ltb_lt in Hlt. rewrite Hlt. unfold getMoreUntilDone. by eexists _, _.
Qed.

(** The answer to a page that brings the counter to the total: its
    documents are pushed, then end-of-data, and nothing is requested. *)
Lemma on_fulfilled_end p w :
  numFound p <= counter (self w) + Z.of_nat (length (docs p)) ->
  on_fulfilled p w =
  World (MkStream false 0 (urlBase (self w)) (params (self w)))
        (store w) (signals w ++ map Push (docs p) ++ [PushNull])
        (issued w) (pending w).
Proof.
  intros Hge. unfold on_fulfilled. rewrite push_docs_eq.
  unfold next_or_end. cbn [self counter].
  apply Z.ltb_ge in Hge. rewrite Hge. cbn. by rewrite <- app_assoc.
Qed.

Lemma responses_cons_pull es : responses (Pull :: es) = responses es.
Proof. reflexivity. Qed.

(** While pages keep the counter below the total, the scroll goes on from
    answer to answer, whatever pulls arrive in between. *)
Lemma scroll_run pages :
  forall es w u,
    reading (self w) = true ->
    pending w = [u] ->
    continues (counter (self w)) pages = true ->
    responses es = map Resolve pages ->
    exists w' u',
      run es w = Some w'
      /\ reading (self w') = true
      /\ pending w' = [u']
      /\ counter (self w') = counter (self w) + Z.of_nat (length (all_docs pages))
      /\ signals w' = signals w ++ map Push (all_docs pages)
      /\ length (issued w') = (length (issued w) + length pages)%nat.
Proof.
  intros es. revert pages.
  induction es as [|e es IH]; intros pages w u Hreading Hpending Hcont Hresp.
  - destruct pages; [|done]. exists w, u. simpl.
    rewrite Z.add_0_r, app_nil_r, Nat.add_0_r. done.
  - destruct e as [|p|err].
    + rewrite responses_cons_pull in Hresp. cbn [run step].
      rewrite _read_reading by done. by apply (IH pages w u).
    + destruct pages as [|p' pages]; [done|].
      injection Hresp as <- Hresp.
      cbn [continues] in Hcont. apply andb_prop in Hcont as [Hlt Hcont].
      apply Z.ltb_lt in Hlt.
      cbn [run step]. unfold settled. rewrite Hpending. cbn [fmap option_fmap option_map].
      set (w0 := World (self w) (store w) (signals w) (issued w) []).
      destruct (on_fulfilled_continue p w0 Hlt) as (u1 & h1 & Hw1).
      rewrite Hw1.
      edestruct (IH pages) as (w' & u' & Hrun & Hr & Hp & Hc & Hs & Hi);
        [| | |exact Hresp|]; cycle 3.
      * exists w', u'. split; [exact Hrun|]. split; [done|]. split; [done|].
        subst w0. cbn [self counter signals issued] in Hc, Hs, Hi.
        unfold all_docs in *. cbn [map concat].
        rewrite length_app, map_app, Hc, Hs, Hi.
        split; [lia|]. split; [by rewrite <- app_assoc|].
        rewrite length_app. cbn [length]. lia.
      * done.
      * reflexivity.
      * done.
    + destruct pages; discriminate.
Qed.

(** The guard is kept by every event. *)
Lemma single_flight_step e w w' :
  single_flight w -> step e w = Some w' -> single_flight w'.
Proof.
  intros [Hlen Hguard] Hstep. destruct e as [|p|err]; cbn [step] in Hstep.
  - injection Hstep as <-. unfold _read.
    destruct (reading (self w)) eqn:Hr; [done|].
    destruct (pending w) as [|u rest] eqn:Hp.
    + split; cbn; rewrite ?Hp; cbn; [lia | done].
    + assert (false = true) by (by apply Hguard). done.
  - unfold settled in Hstep.
    destruct (pending w) as [|u [|u' rest]] eqn:Hp; [done| |cbn in Hlen; lia].
    injection Hstep as <-. unfold on_fulfilled. rewrite push_docs_eq.
    unfold next_or_end. cbn [self counter reading store signals issued pending].
    rewrite Hguard by done.
    case_match; split; cbn; try lia; done.
  - unfold settled in Hstep.
    destruct (pending w) as [|u [|u' rest]] eqn:Hp; [done| |cbn in Hlen; lia].
    injection Hstep as <-. split; cbn; [lia | done].
Qed.

Lemma single_flight_run es :
  forall w w', single_flight w -> run es w = Some w' -> single_flight w'.
Proof.
  induction es as [|e es IH]; intros w w' Hw Hrun.
  - by injection Hrun as <-.
  - cbn [run] in Hrun. destruct (step e w) as [w1|] eqn:Hstep; [|done].
    eapply IH; [|exact Hrun]. by eapply single_flight_step.
Qed.

Lemma single_flight_constructor options h : single_flight (constructor options h).
Proof.
  unfold constructor. destruct options as [l|]; [|destruct (alloc _ h)];
    split; cbn; done || lia.
Qed.

Lemma run_app es1 es2 w :
  run (es1 ++ es2) w = match run es1 w with Some w' => run es2 w' | None => None end.
Proof.
  revert w. induction es1 as [|e es1 IH]; intros w; [done|].
  cbn [app run]. destruct (step e w); [apply IH | done].
Qed.

Lemma responses_app es1 es2 : responses (es1 ++ es2) = responses es1 ++ responses es2.
Proof. apply List.filter_app. Qed.

(** Pulls alone change nothing while the guard is set. *)
Lemma run_pulls es w :
  responses es = [] -> reading (self w) = true -> run es w = Some w.
Proof.
  intros Hresp Hreading. induction es as [|e es IH]; [done|].
  destruct e; try discriminate.
  cbn [run step]. rewrite _read_reading by done. by apply IH.
Qed.

(** Once the guard is set and nothing is pending, nothing happens any more. *)
Lemma run_stuck es :
  forall w w',
    reading (self w) = true -> pending w = [] -> run es w = Some w' -> w' = w.
Proof.
  induction es as [|e es IH]; intros w w' Hreading Hpending Hrun.
  - by injection Hrun as <-.
  - destruct e; cbn [run step] in Hrun.
    + rewrite _read_reading in Hrun by done. by apply IH.
    + unfold settled in Hrun. by rewrite Hpending in Hrun.
    + unfold settled in Hrun. by rewrite Hpending in Hrun.
Qed.

(** The first pull of a fresh stream sends the first request. *)
Lemma first_pull options h :
  exists u,
    reading (self (_read (constructor options h))) = true
    /\ pending (_read (constructor options h)) = [u]
    /\ issued (_read (constructor options h)) = [u]
    /\ counter (self (_read (constructor options h))) = 0
    /\ signals (_read (constructor options h)) = [].
Proof.
  unfold constructor. destruct options as [l|]; [|destruct (alloc _ h)];
    by eexists.
Qed.

Lemma omap_push ds :
  omap (fun s => match s with Push d => Some d | _ => None end) (map Push ds) = ds.
Proof. induction ds as [|d rest IH]; [done|]. simpl. f_equal. exact IH. Qed.

Lemma omap_error_push ds :
  omap (fun s => match s with EmitError e => Some e | _ => None end) (map Push ds) = [].
Proof. induction ds as [|d rest IH]; [done|]. exact IH. Qed.

Lemma existsb_null_push ds :
  existsb (fun s => match s with PushNull => true | _ => false end) (map Push ds) = false.
Proof. induction ds as [|d rest IH]; [done|]. exact IH. Qed.

(** The scroll of a fresh stream after its first pull. *)
Lemma scroll_from_start options h pages es :
  continues 0 pages = true ->
  responses es = map Resolve pages ->
  exists w u,
    run (Pull :: es) (constructor options h) = Some w
    /\ reading (self w) = true
    /\ pending w = [u]
    /\ counter (self w) = Z.of_nat (length (all_docs pages))
    /\ signals w = map Push (all_docs pages)
    /\ length (issued w) = S (length pages).
Proof.
  intros Hcont Hresp.
  destruct (first_pull options h) as (u & Hreading & Hpending & Hissued & Hcounter & Hsignals).
  destruct (scroll_run pages es (_read (constructor options h)) u)
    as (w & u' & Hrun & Hr & Hp & Hc & Hs & Hi); try done.
  { by rewrite Hcounter. }
  exists w, u'. rewrite Hcounter in Hc. rewrite Hsignals in Hs. rewrite Hissued in Hi.
  repeat split; done.
Qed.

(** The answer that brings the counter to the total ends the scroll. *)
Lemma end_of_scroll es p w u :
  reading (self w) = true ->
  pending w = [u] ->
  numFound p <= counter (self w) + Z.of_nat (length (docs p)) ->
  responses es = [] ->
  exists w',
    run (es ++ [Resolve p]) w = Some w'
    /\ signals w' = signals w ++ map Push (docs p) ++ [PushNull]
    /\ issued w' = issued w
    /\ pending w' = []
    /\ reading (self w') = false
    /\ counter (self w') = 0.
Proof.
  intros Hreading Hpending Hge Hresp.
  rewrite run_app, run_pulls by done. cbn [run step]. unfold settled.
  rewrite Hpending. cbn [fmap option_fmap option_map].
  rewrite on_fulfilled_end by exact Hge. by eexists.
Qed.

Lemma all_docs_one p : all_docs [p] = docs p.
Proof. unfold all_docs. cbn. apply app_nil_r. Qed.
End StreamFacts.

Section StreamClaims.
Import Stream.

(** C2 as stated fails: after a single pull, the answer to the first page
    (one document out of two) sends the request for the second page by
    itself; the consumer has not pulled again. *)
Lemma next_page_fetched_without_pull :
  exists w1 w2,
    run [Pull] (constructor None ∅) = Some w1
    /\ step (Resolve (Page [VStr "doc1"] 2 "AoE1")) w1 = Some w2
    /\ length (issued w1) = 1%nat
    /\ length (issued w2) = 2%nat
    /\ length (pending w2) = 1%nat
    /\ emitted w2 = [VStr "doc1"].
Proof. eexists _, _. repeat split; reflexivity. Qed.

(** C2, as the code has it: only the first page fetch answers a pull.  Each
    later fetch is sent by the handler of the previous answer, right after
    the documents of that page were pushed, as long as the counter is below
    [numFound]; so after the first pull the number of requests sent is one
    more than the number of pages answered, whatever pulls arrive in
    between, even none, and a request is pending again. *)
Theorem scroll_is_response_driven options h pages es :
  continues 0 pages = true ->
  responses es = map Resolve pages ->
  (exists w,
      run (Pull :: es) (constructor options h) = Some w
      /\ length (issued w) = S (length pages)
      /\ emitted w = all_docs pages
      /\ length (pending w) = 1%nat)
  /\ (forall w p w',
        step (Resolve p) w = Some w' ->
        counter (self w) + Z.of_nat (length (docs p)) < numFound p ->
        length (issued w') = S (length (issued w))
        /\ signals w' = signals w ++ map Push (docs p)).
Proof.
  intros Hcont Hresp. split.
  - destruct (scroll_from_start options h pages es Hcont Hresp)
      as (w & u & Hrun & _ & Hp & _ & Hs & Hi).
    exists w. split; [done|]. split; [done|]. split.
    + unfold emitted. rewrite Hs. apply omap_push.
    + by rewrite Hp.
  - intros w p w' Hstep Hlt. cbn [step] in Hstep. unfold settled in Hstep.
    destruct (pending w) as [|u rest]; [done|]. injection Hstep as <-.
    edestruct on_fulfilled_continue as (u' & h' & ->); [exact Hlt|].
    cbn. split; [|done]. rewrite length_app. cbn. lia.
Qed.

Lemma scroll_is_response_driven_witness :
  exists w,
    run [Pull; Resolve (Page [VStr "doc1"] 3 "AoE1"); Resolve (Page [VStr "doc2"] 3 "AoE2")]
        (constructor None ∅) = Some w
    /\ length (issued w) = 3%nat
    /\ emitted w = [VStr "doc1"; VStr "doc2"]
    /\ length (pending w) = 1%nat.
Proof.
  exact (proj1 (scroll_is_response_driven None ∅
                  [Page [VStr "doc1"] 3 "AoE1"; Page [VStr "doc2"] 3 "AoE2"]
                  [Resolve (Page [VStr "doc1"] 3 "AoE1");
                   Resolve (Page [VStr "doc2"] 3 "AoE2")]
                  eq_refl eq_refl)).
Defined.

(** C8: in every state a stream can reach, at most one request is pending,
    and a pull that arrives while one is pending (or while the guard is
    set) leaves the stream, the heap and the requests as they are. *)
Theorem pull_while_fetching_is_noop options h es w :
  run es (constructor options h) = Some w ->
  (length (pending w) <= 1)%nat
  /\ (pending w <> [] -> reading (self w) = true)
  /\ (pending w <> [] -> step Pull w = Some w)
  /\ (reading (self w) = true -> step Pull w = Some w).
Proof.
  intros Hrun.
  destruct (single_flight_run es _ _ (single_flight_constructor options h) Hrun)
    as [Hlen Hguard].
  split; [done|]. split; [done|]. split.
  - intros Hp. cbn [step]. by rewrite _read_reading by auto.
  - intros Hr. cbn [step]. by rewrite _read_reading.
Qed.

Lemma pull_while_fetching_is_noop_witness :
  exists w,
    run [Pull; Pull; Resolve (Page [VStr "doc1"] 3 "AoE1"); Pull] (constructor None ∅)
    = Some w
    /\ (length (pending w) <= 1)%nat
    /\ step Pull w = Some w.
Proof.
  eexists. split; [reflexivity|].
  pose proof (pull_while_fetching_is_noop None ∅
                [Pull; Pull; Resolve (Page [VStr "doc1"] 3 "AoE1"); Pull] _ eq_refl)
    as (Hlen & _ & Hpull & _).
  split; [exact Hlen|]. apply Hpull. discriminate.
Defined.

(** C6: when the request that follows some pages fails, the documents of
    those pages, and no others, have been pushed and stay pushed, the error
    is emitted, the counter keeps the number of documents pushed (it is not
    reset), end-of-data is not signalled, and no further request is ever
    sent: the requests sent are those of the pages answered and the one that
    failed, nothing is pending, and whatever happens later changes nothing. *)
Theorem failure_mid_scroll options h pages es e :
  continues 0 pages = true ->
  responses es = map Resolve pages ->
  exists w,
    run (Pull :: es ++ [Reject e]) (constructor options h) = Some w
    /\ emitted w = all_docs pages
    /\ errors w = [e]
    /\ ended w = false
    /\ counter (self w) = Z.of_nat (length (all_docs pages))
    /\ length (issued w) = S (length pages)
    /\ pending w = []
    /\ (forall es' w', run es' w = Some w' -> w' = w).
Proof.
  intros Hcont Hresp.
  destruct (scroll_from_start options h pages es Hcont Hresp)
    as (w & u & Hrun & Hr & Hp & Hc & Hs & Hi).
  exists (on_rejected e (World (self w) (store w) (signals w) (issued w) [])).
  split.
  { rewrite app_comm_cons, run_app, Hrun. cbn [run step]. unfold settled.
    by rewrite Hp. }
  unfold emitted, errors, ended. cbn. rewrite Hs.
  split; [rewrite omap_app; cbn; by rewrite omap_push, app_nil_r|].
  split; [rewrite omap_app; cbn; by rewrite omap_error_push|].
  split; [rewrite existsb_app; cbn; by rewrite existsb_null_push|].
  split; [done|]. split; [done|]. split; [done|].
  intros es' w'. by apply run_stuck.
Qed.

Lemma failure_mid_scroll_witness :
  exists w,
    run [Pull; Resolve (Page [VStr "doc1"; VStr "doc2"] 5 "AoE1");
         Reject (Error "socket hang up")] (constructor None ∅) = Some w
    /\ emitted w = [VStr "doc1"; VStr "doc2"]
    /\ errors w = [Error "socket hang up"]
    /\ counter (self w) = 2
    /\ length (issued w) = 2%nat.
Proof.
  destruct (failure_mid_scroll None ∅ [Page [VStr "doc1"; VStr "doc2"] 5 "AoE1"]
              [Resolve (Page [VStr "doc1"; VStr "doc2"] 5 "AoE1")]
              (Error "socket hang up") eq_refl eq_refl)
    as (w & Hrun & Hemitted & Herrors & _ & Hcounter & Hissued & _).
  exists w. repeat split; assumption.
Defined.

(** C3: with [numFound = 2500] and pages of [1000] documents, a stream that
    is drained sends exactly three requests and pushes exactly the 2500
    documents, in order, the counter going up by one with each document, to
    1000, 2000 and 2500, and then signals end-of-data; with [numFound = 0]
    the first answer carries no document, end-of-data is signalled at once
    and the only request sent is the first one. *)
Theorem drain_2500_by_1000 options h :
  (forall p1 p2 p3 es1 es2 es3,
      numFound p1 = 2500 -> numFound p2 = 2500 -> numFound p3 = 2500 ->
      length (docs p1) = 1000%nat -> length (docs p2) = 1000%nat ->
      length (docs p3) = 500%nat ->
      responses es1 = [] -> responses es2 = [] -> responses es3 = [] ->
      exists w1 w2 w3,
        run (Pull :: es1 ++ [Resolve p1]) (constructor options h) = Some w1
        /\ run (es2 ++ [Resolve p2]) w1 = Some w2
        /\ run (es3 ++ [Resolve p3]) w2 = Some w3
        /\ counter (self w1) = 1000
        /\ counter (self w2) = 2000
        /\ counter (self (push_docs (docs p3) w2)) = 2500
        /\ length (issued w1) = 2%nat
        /\ length (issued w2) = 3%nat
        /\ length (issued w3) = 3%nat
        /\ pending w3 = []
        /\ signals w3 = map Push (docs p1 ++ docs p2 ++ docs p3) ++ [PushNull]
        /\ emitted w3 = docs p1 ++ docs p2 ++ docs p3
        /\ length (emitted w3) = 2500%nat
        /\ ended w3 = true)
  /\ (forall p es,
        numFound p = 0 -> docs p = [] -> responses es = [] ->
        exists w,
          run (Pull :: es ++ [Resolve p]) (constructor options h) = Some w
          /\ signals w = [PushNull]
          /\ emitted w = []
          /\ ended w = true
          /\ length (issued w) = 1%nat
          /\ pending w = [])
  /\ (forall ds w,
        counter (self (push_docs ds w)) = counter (self w) + Z.of_nat (length ds)).
Proof.
  split; [|split].
  - intros p1 p2 p3 es1 es2 es3 Hn1 Hn2 Hn3 Hl1 Hl2 Hl3 He1 He2 He3.
    destruct (scroll_from_start options h [p1] (es1 ++ [Resolve p1]))
      as (w1 & u1 & Hrun1 & Hr1 & Hp1 & Hc1 & Hs1 & Hi1).
    { cbn [continues]. rewrite Hl1, Hn1. reflexivity. }
    { by rewrite responses_app, He1. }
    rewrite all_docs_one in Hc1, Hs1. rewrite Hl1 in Hc1.
    destruct (scroll_run [p2] (es2 ++ [Resolve p2]) w1 u1)
      as (w2 & u2 & Hrun2 & Hr2 & Hp2 & Hc2 & Hs2 & Hi2); try done.
    { cbn [continues]. rewrite Hc1, Hl2, Hn2. reflexivity. }
    { by rewrite responses_app, He2. }
    rewrite all_docs_one in Hc2, Hs2. rewrite Hl2, Hc1 in Hc2.
    destruct (end_of_scroll es3 p3 w2 u2)
      as (w3 & Hrun3 & Hs3 & Hi3 & Hp3 & _ & _); try done.
    { rewrite Hc2, Hl3, Hn3. lia. }
    assert (Hsig : signals w3 = map Push (docs p1 ++ docs p2 ++ docs p3) ++ [PushNull]).
    { rewrite Hs3, Hs2, Hs1, !map_app, <- !app_assoc. done. }
    assert (Hem : emitted w3 = docs p1 ++ docs p2 ++ docs p3).
    { unfold emitted. rewrite Hsig, omap_app, omap_push. cbn. apply app_nil_r. }
    exists w1, w2, w3.
    split; [exact Hrun1|]. split; [exact Hrun2|]. split; [exact Hrun3|].
    split; [exact Hc1|]. split; [exact Hc2|].
    split; [rewrite push_docs_eq; cbn [self counter]; rewrite Hc2, Hl3; reflexivity|].
    split; [exact Hi1|]. split; [rewrite Hi2, Hi1; reflexivity|].
    split; [rewrite Hi3, Hi2, Hi1; reflexivity|].
    split; [exact Hp3|]. split; [exact Hsig|]. split; [exact Hem|].
    split; [rewrite Hem, !length_app, Hl1, Hl2, Hl3; reflexivity|].
    unfold ended. rewrite Hsig, existsb_app. cbn. apply orb_true_r.
  - intros p es Hn Hd Hresp.
    destruct (first_pull options h) as (u & Hr & Hp & Hi & Hc & Hs).
    destruct (end_of_scroll es p (_read (constructor options h)) u)
      as (w & Hrun & Hs' & Hi' & Hp' & _ & _); try done.
    { rewrite Hc, Hd, Hn. reflexivity. }
    rewrite Hs, Hd in Hs'. cbn in Hs'.
    exists w. split; [exact Hrun|]. split; [exact Hs'|].
    unfold emitted, ended. rewrite Hs'.
    split; [done|]. split; [done|]. split; [by rewrite Hi', Hi | exact Hp'].
  - intros ds w. by rewrite push_docs_eq.
Qed.

Lemma drain_2500_by_1000_witness :
  let p1 := Page (repeat (VStr "doc") 1000) 2500 "AoE1" in
  let p2 := Page (repeat (VStr "doc") 1000) 2500 "AoE2" in
  let p3 := Page (repeat (VStr "doc") 500) 2500 "AoE3" in
  exists w1 w2 w3,
    run [Pull; Resolve p1] (constructor None ∅) = Some w1
    /\ run [Pull; Resolve p2] w1 = Some w2
    /\ run [Resolve p3] w2 = Some w3
    /\ length (emitted w3) = 2500%nat
    /\ length (issued w3) = 3%nat
    /\ ended w3 = true.
Proof.
  intros p1 p2 p3.
  destruct (proj1 (drain_2500_by_1000 None ∅) p1 p2 p3 [] [Pull] []
              eq_refl eq_refl eq_refl eq_refl eq_refl eq_refl eq_refl eq_refl eq_refl)
    as (w1 & w2 & w3 & H1 & H2 & H3 & _ & _ & _ & _ & _ & Hi & _ & _ & _ & Hlen & Hend).
  exists w1, w2, w3. repeat split; assumption.
Defined.
End StreamClaims.

(** ** More on the compiler *)

Section CompilerExtras.
Import Compiler.

Lemma nonempty_false s : nonempty s = false -> s = "".
Proof. by destruct s. Qed.

Lemma nonempty_append a b : nonempty a = true -> nonempty (a +:+ b) = true.
Proof. by destruct a. Qed.

Lemma forEach_Ok rec elems :
  (forall x, In x elems -> exists q, rec x "AND" = Ok q) ->
  forall parts, exists parts', forEach rec elems parts = Ok parts'.
Proof.
  induction elems as [|x rest IH]; intros Hall parts; [by eexists|].
  cbn [forEach]. destruct (Hall x) as [q ->]; [by left|]. cbn [bind].
  apply IH. intros y Hy. apply Hall. by right.
Qed.

Lemma for_in_Ok rec props :
  (forall p v, In (p, v) props -> forall st, exists st', for_in_body rec st p v = Ok st') ->
  forall st, exists st', for_in rec props st = Ok st'.
Proof.
  induction props as [|[p v] rest IH]; intros Hall st; [by eexists|].
  rewrite for_in_cons. destruct (Hall p v (or_introl eq_refl) st) as [st1 ->].
  cbn [bind]. apply IH. intros p' v' Hin. apply Hall. by right.
Qed.

Lemma toString_scalar v : scalar v = true -> exists text, toString v = Ok text.
Proof. destruct v as [| |[]| | | |]; try discriminate; by eexists. Qed.

Lemma string_props_fields i s p v :
  In (p, v) (string_props_from i s) -> reserved p = false /\ scalar v = true.
Proof.
  revert i. induction s as [|c rest IH]; intros i; [done|].
  intros [Heq | Hin].
  - injection Heq as <- <-. split; [apply nat_to_string_not_reserved | done].
  - by apply (IH (S i)).
Qed.

Lemma for_in_body_field_Ok rec st p v :
  reserved p = false -> scalar v = true -> exists st', for_in_body rec st p v = Ok st'.
Proof.
  intros Hp Hv. rewrite for_in_field by done.
  destruct (toString_scalar v Hv) as [text ->]. by eexists.
Qed.

Lemma for_in_body_operator_Ok rec st p v :
  reserved p = true -> (forall op, exists q, rec v op = Ok q) ->
  exists st', for_in_body rec st p v = Ok st'.
Proof.
  intros Hp Hrec. destruct st as [parts negation]. unfold for_in_body.
  unfold reserved in Hp.
  destruct (String.eqb p "$or"); [destruct (Hrec "OR") as [q ->]; by eexists|].
  destruct (String.eqb p "$and"); [destruct (Hrec "AND") as [q ->]; by eexists|].
  destruct (String.eqb p "$not"); [destruct (Hrec "OR") as [q ->]; by eexists|].
  done.
Qed.

(** X1: the compiler raises nothing but a [TypeError], whatever the
    descriptor and the operator. *)
Theorem buildQuery_raises_only_TypeError search operator e :
  buildQuery search operator = Throw e -> e = TypeError.
Proof. unfold buildQuery. apply buildQuery_op_TypeError. Qed.

Lemma buildQuery_raises_only_TypeError_witness :
  buildQuery (VObj [("$or", VArr [VObj [("a", VUndefined)]])]) (Some "OR")
  = Throw TypeError.
Proof.
  destruct (buildQuery (VObj [("$or", VArr [VObj [("a", VUndefined)]])]) (Some "OR"))
    as [q|e] eqn:H.
  - discriminate H.
  - by rewrite (buildQuery_raises_only_TypeError _ _ _ H).
Defined.

(** X2: on a descriptor all of whose field terms hold a string, a number
    or a boolean, at every depth, the compiler returns a text: it raises
    nothing. *)
Theorem scalar_descriptor_compiles search :
  scalar_terms search = true ->
  forall operator, exists q, buildQuery search operator = Ok q.
Proof.
  intros Hs operator. unfold buildQuery. generalize (operator_or_AND operator).
  clear operator. revert Hs.
  induction search as [| | | | s | elems IH | props IH] using value_nested_ind;
    intros Hs operator; cbn [buildQuery_op]; try by eexists.
  - destruct (for_in_Ok (fun _ _ => Ok "") (string_props s)) with (st := ([], None) : acc)
      as [st ->]; [|by eexists].
    intros p v Hin st. apply string_props_fields in Hin as [Hp Hv].
    by apply for_in_body_field_Ok.
  - cbn [scalar_terms] in Hs. rewrite forallb_forall in Hs.
    rewrite Forall_forall in IH.
    destruct (forEach_Ok buildQuery_op elems) with (parts := [] : list string)
      as [parts ->]; [|by eexists].
    intros x Hx. apply (IH x); [by apply list_elem_of_In | by apply Hs].
  - cbn [scalar_terms] in Hs. rewrite forallb_forall in Hs.
    rewrite Forall_forall in IH.
    destruct (for_in_Ok buildQuery_op props) with (st := ([], None) : acc)
      as [st ->]; [|by eexists].
    intros p v Hin st. specialize (Hs _ Hin). cbn in Hs.
    destruct (reserved p) eqn:Hp.
    + apply for_in_body_operator_Ok; [done|]. intros op.
      apply (IH (p, v)); [by apply list_elem_of_In | done].
    + by apply for_in_body_field_Ok.
Qed.

Lemma scalar_descriptor_compiles_witness :
  exists q,
    buildQuery
      (VObj [("$or", VArr [VObj [("a", VNum 1)]; VObj [("b", VStr "x"); ("c", VBool true)]]);
             ("$not", VObj [("d", VNum 2)])]) None = Ok q.
Proof. apply scalar_descriptor_compiles. reflexivity. Defined.

(** X3: a mapping with the single key [$or] compiles to what its operand
    compiles to under [OR], and with the single key [$and] to what it
    compiles to under [AND], whatever the operator around the mapping; with
    the single key [$not] it compiles to the operand under [OR] wrapped in
    [NOT( )], or to the empty text when the operand compiles to it. *)
Theorem operator_keys_fix_the_inner_operator v operator :
  buildQuery (VObj [("$or", v)]) operator = buildQuery v (Some "OR")
  /\ buildQuery (VObj [("$and", v)]) operator = buildQuery v (Some "AND")
  /\ buildQuery (VObj [("$not", v)]) operator =
     let* q := buildQuery v (Some "OR") in
     Ok (if nonempty q then "NOT(" +:+ q +:+ ")" else "").
Proof.
  unfold buildQuery. generalize (operator_or_AND operator). intros op.
  change (operator_or_AND (Some "OR")) with "OR".
  change (operator_or_AND (Some "AND")) with "AND".
  rewrite !buildQuery_op_obj, !for_in_cons. cbn [for_in_body String.eqb Ascii.eqb
    Bool.eqb]. cbn [for_in].
  split; [|split].
  - destruct (buildQuery_op v "OR") as [q|e]; [|done]. cbn.
    destruct (nonempty q) eqn:Hq; [done|]. by rewrite (nonempty_false q Hq).
  - destruct (buildQuery_op v "AND") as [q|e]; [|done]. cbn.
    destruct (nonempty q) eqn:Hq; [done|]. by rewrite (nonempty_false q Hq).
  - destruct (buildQuery_op v "OR") as [q|e]; [|done]. cbn.
    by destruct (nonempty q).
Qed.

Lemma forEach_mapM rec elems :
  forall parts,
    forEach rec elems parts =
    let* texts := mapM (fun x => rec x "AND") elems in
    Ok (parts ++ List.filter nonempty texts).
Proof.
  induction elems as [|x rest IH]; intros parts.
  - cbn. by rewrite app_nil_r.
  - cbn [forEach mapM]. destruct (rec x "AND") as [part|e]; [|done]. cbn [bind].
    rewrite IH. destruct (mapM _ rest) as [texts|e]; [|done]. cbn [bind List.filter].
    destruct (nonempty part); [by rewrite <- app_assoc | done].
Qed.

(** X4: a list compiles every element under [AND], whatever the operator
    around the list, drops the elements that compile to the empty text and
    combines the others with the operator around it, in their order; the
    first element that raises makes the list raise.  A list of one element
    compiles to what the element compiles to under [AND]. *)
Theorem list_elements_compile_under_AND elems operator :
  buildQuery_op (VArr elems) operator =
  (let* texts := mapM (fun x => buildQuery_op x "AND") elems in
   Ok (combine operator (List.filter nonempty texts, None)))
  /\ (forall x, buildQuery_op (VArr [x]) operator = buildQuery_op x "AND").
Proof.
  split.
  - cbn [buildQuery_op]. rewrite forEach_mapM.
    by destruct (mapM _ elems).
  - intros x. cbn [buildQuery_op forEach].
    destruct (buildQuery_op x "AND") as [q|e]; [|done]. cbn.
    destruct (nonempty q) eqn:Hq; [done|]. by rewrite (nonempty_false q Hq).
Qed.

Lemma for_in_body_nonempty rec st p v st' :
  terms_nonempty st -> for_in_body rec st p v = Ok st' ->
  terms_nonempty st' /\ (length (fst st) <= length (fst st'))%nat
  /\ (reserved p = false -> (length (fst st) < length (fst st'))%nat).
Proof.
  destruct st as [parts negation]. intros [Hparts Hneg]. cbn [fst snd] in Hparts, Hneg.
  unfold for_in_body, reserved, terms_nonempty.
  assert (Hgrow : forall q : string, nonempty q = true ->
            Forall (fun part => nonempty part = true) (parts ++ [q])).
  { intros q Hq. apply Forall_app. split; [done|]. by apply Forall_singleton. }
  destruct (String.eqb p "$or"); [|destruct (String.eqb p "$and");
    [|destruct (String.eqb p "$not")]];
    intros (q & _ & Hst)%bind_Ok; injection Hst as <-; cbn [fst snd orb].
  - destruct (nonempty q) eqn:Hq; rewrite ?length_app; cbn [length];
      repeat split; auto; try done; lia.
  - destruct (nonempty q) eqn:Hq; rewrite ?length_app; cbn [length];
      repeat split; auto; try done; lia.
  - repeat split; auto; try done.
    destruct (nonempty q) eqn:Hq; [|done]. intros neg Heq. by injection Heq as <-.
  - rewrite length_app. cbn [length]. repeat split; auto; try lia.
    apply Hgrow. by destruct p.
Qed.

Lemma for_in_nonempty rec props :
  forall st st',
    terms_nonempty st -> for_in rec props st = Ok st' ->
    terms_nonempty st' /\ (length (fst st) <= length (fst st'))%nat
    /\ ((exists p v, In (p, v) props /\ reserved p = false) ->
        (length (fst st) < length (fst st'))%nat).
Proof.
  induction props as [|[p v] rest IH]; intros st st' Hst Hrun.
  - injection Hrun as <-. split; [done|]. split; [lia|].
    intros (p & v & [] & _).
  - rewrite for_in_cons in Hrun. apply bind_Ok in Hrun as (st1 & Hbody & Hrun).
    destruct (for_in_body_nonempty _ _ _ _ _ Hst Hbody) as (Hst1 & Hle1 & Hlt1).
    destruct (IH _ _ Hst1 Hrun) as (Hst' & Hle & Hlt).
    split; [done|]. split; [lia|].
    intros (p' & v' & [Heq | Hin] & Hp').
    + injection Heq as <- <-. specialize (Hlt1 Hp'). lia.
    + assert (length (fst st1) < length (fst st'))%nat by (apply Hlt; eauto). lia.
Qed.

Lemma combine_nonempty operator st :
  terms_nonempty st -> fst st <> [] -> nonempty (combine operator st) = true.
Proof.
  destruct st as [[|first others] negation]; [done|]. intros [Hparts Hneg] _.
  cbn [combine]. apply Forall_cons in Hparts as [Hfirst _].
  destruct negation as [neg|].
  - apply nonempty_append, nonempty_append. by apply Hneg.
  - by destruct others.
Qed.

(** X5: a mapping with a field term (a key other than [$or], [$and] and
    [$not]) never compiles to the empty text, so [query] sends the compiled
    text and does not put the match-all term in its place. *)
Theorem field_term_makes_text_nonempty props operator q :
  buildQuery (VObj props) operator = Ok q ->
  (exists p v, In (p, v) props /\ reserved p = false) ->
  nonempty q = true
  /\ Api.query_text (VObj props) = buildQuery (VObj props) (Some "AND").
Proof.
  intros Hq Hfield.
  assert (Hne : forall op q', buildQuery_op (VObj props) op = Ok q' -> nonempty q' = true).
  { intros op q'. rewrite buildQuery_op_obj. intros (st & Hst & Heq)%bind_Ok.
    injection Heq as <-.
    destruct (for_in_nonempty buildQuery_op props ([], None) st) as (Hst' & _ & Hlt);
      [by split | done |].
    apply combine_nonempty; [done|]. specialize (Hlt Hfield).
    destruct (fst st); [cbn in Hlt; lia | done]. }
  split; [by apply (Hne (operator_or_AND operator))|].
  unfold Api.query_text.
  destruct (buildQuery (VObj props) (Some "AND")) as [q'|e] eqn:Hq'; [|done].
  cbn [bind]. by rewrite (Hne _ _ Hq').
Qed.

Lemma field_term_makes_text_nonempty_witness :
  nonempty "NOT(b:2) OR (a:1)" = true
  /\ Api.query_text (VObj [("$not", VObj [("b", VNum 2)]); ("a", VNum 1)])
     = buildQuery (VObj [("$not", VObj [("b", VNum 2)]); ("a", VNum 1)]) (Some "AND").
Proof.
  apply (field_term_makes_text_nonempty
           [("$not", VObj [("b", VNum 2)]); ("a", VNum 1)] (Some "OR")).
  - reflexivity.
  - exists "a", (VNum 1). split; [right; left; reflexivity | reflexivity].
Defined.

Lemma for_in_index_terms rec i s :
  forall st,
    for_in rec (string_props_from i s) st =
    Ok (fst st ++ map index_term (string_props_from i s), snd st).
Proof.
  revert i. induction s as [|c rest IH]; intros i [parts negation].
  - cbn. by rewrite app_nil_r.
  - cbn [string_props_from]. rewrite for_in_cons, for_in_field
      by apply nat_to_string_not_reserved.
    cbn [toString ToString bind fst snd]. rewrite IH. cbn [fst snd map].
    by rewrite <- app_assoc.
Qed.

(** X6: a string where a descriptor is expected raises nothing: it is
    compiled as a mapping from its indices to its characters, one term
    [index:character] for each, combined with the operator around it; the
    empty string compiles to the empty text. *)
Theorem string_descriptor_compiles_by_index s operator :
  buildQuery_op (VStr s) operator =
  Ok (combine operator (map index_term (string_props s), None))
  /\ length (string_props s) = String.length s
  /\ buildQuery_op (VStr "") operator = Ok "".
Proof.
  split; [|split].
  - cbn [buildQuery_op]. unfold string_props. by rewrite for_in_index_terms.
  - unfold string_props. generalize 0%nat.
    induction s as [|c rest IH]; intros i; [done|]. cbn. by rewrite IH.
  - reflexivity.
Qed.

Lemma for_in_field_terms rec props :
  (forall kv, In kv props -> reserved (fst kv) = false) ->
  forall st,
    for_in rec props st =
    let* texts := mapM (fun kv => toString (snd kv)) props in
    Ok (fst st ++ zip_with field_term props texts, snd st).
Proof.
  induction props as [|[p v] rest IH]; intros Hfields [parts negation].
  - cbn. by rewrite app_nil_r.
  - rewrite for_in_cons, for_in_field by (apply (Hfields (p, v)); by left).
    cbn [mapM fst snd]. destruct (toString v) as [t|e]; [|done]. cbn [bind].
    rewrite IH by (intros kv Hkv; apply Hfields; by right).
    destruct (mapM _ rest) as [texts|e]; [|done]. cbn [bind fst snd zip_with].
    by rewrite <- app_assoc.
Qed.

(** X20: a mapping made of field terms only compiles to one term
    [key:text] for each key, in the order of the keys, the texts being those
    of the values' [toString]; the terms are combined with the operator
    around the mapping, and the first value without a text makes the
    compiler raise. *)
Theorem field_terms_follow_key_order props operator :
  (forall kv, In kv props -> reserved (fst kv) = false) ->
  buildQuery_op (VObj props) operator =
  let* texts := mapM (fun kv => toString (snd kv)) props in
  Ok (combine operator (zip_with field_term props texts, None)).
Proof.
  intros Hfields. rewrite buildQuery_op_obj, for_in_field_terms by done.
  by destruct (mapM _ props).
Qed.

Lemma field_terms_follow_key_order_witness :
  buildQuery_op (VObj [("docType_s", VStr "ART"); ("producedDateY_i", VNum 2020)]) "OR"
  = Ok "(docType_s:ART) OR (producedDateY_i:2020)".
Proof.
  refine (eq_trans (field_terms_follow_key_order
                      [("docType_s", VStr "ART"); ("producedDateY_i", VNum 2020)] "OR" _) _).
  - intros kv [<- | [<- | []]]; reflexivity.
  - reflexivity.
Defined.
End CompilerExtras.

(** ** Field values without a text *)

Section FieldValues.
Import Compiler.

Lemma forEach_throws_at rec elems x :
  In x elems -> throws (rec x "AND") -> forall parts, throws (forEach rec elems parts).
Proof.
  intros Hin [e He]. induction elems as [|y rest IH]; intros parts; [done|].
  cbn [forEach]. destruct (rec y "AND") as [part|e'] eqn:Hy; [|by eexists].
  cbn [bind]. destruct Hin as [-> | Hin]; [congruence | by apply IH].
Qed.

Lemma for_in_body_operator_throws rec st p v :
  reserved p = true -> (forall op, throws (rec v op)) -> throws (for_in_body rec st p v).
Proof.
  intros Hp Hrec. destruct st as [parts negation]. unfold for_in_body.
  unfold reserved in Hp.
  destruct (String.eqb p "$or"); [destruct (Hrec "OR") as [e ->]; by eexists|].
  destruct (String.eqb p "$and"); [destruct (Hrec "AND") as [e ->]; by eexists|].
  destruct (String.eqb p "$not"); [destruct (Hrec "OR") as [e ->]; by eexists|].
  done.
Qed.

Lemma for_in_body_null_throws rec st p v :
  reserved p = false -> nullish v = true -> throws (for_in_body rec st p v).
Proof.
  intros Hp Hv. rewrite for_in_field by done.
  destruct v; try discriminate; by eexists.
Qed.

(** A [null] or [undefined] field value raises wherever it stands. *)
Lemma null_term_throws search :
  has_null_term search = true -> forall operator, throws (buildQuery_op search operator).
Proof.
  induction search as [| | | | s | elems IH | props IH] using value_nested_ind;
    try discriminate; cbn [has_null_term]; intros Hnull operator.
  - apply existsb_exists in Hnull as (x & Hin & Hx).
    rewrite Forall_forall in IH.
    destruct (forEach_throws_at buildQuery_op elems x Hin) with (parts := [] : list string)
      as [e He].
    { apply (IH x); [by apply list_elem_of_In | done]. }
    cbn [buildQuery_op]. rewrite He. by eexists.
  - apply existsb_exists in Hnull as ([p v] & Hin & Hv).
    rewrite Forall_forall in IH.
    destruct (for_in_throws_at buildQuery_op props ([], None) p v Hin) as [e He].
    { intros st. destruct (reserved p) eqn:Hp.
      - apply for_in_body_operator_throws; [done|].
        apply (IH (p, v)); [by apply list_elem_of_In | done].
      - by apply for_in_body_null_throws. }
    rewrite buildQuery_op_obj, He. by eexists.
Qed.

Lemma toString_has_text v : has_text v = true -> exists text, toString v = Ok text.
Proof.
  destruct v as [| |[]| | | |o]; try discriminate; try by eexists.
  cbn [has_text toString ToString]. destruct (has_own "toString" o); [done | by eexists].
Qed.

Lemma text_terms_compile search :
  text_terms search = true -> forall operator, exists q, buildQuery_op search operator = Ok q.
Proof.
  induction search as [| | | | s | elems IH | props IH] using value_nested_ind;
    intros Ht operator; cbn [buildQuery_op]; try by eexists.
  - destruct (for_in_Ok (fun _ _ => Ok "") (string_props s)) with (st := ([], None) : acc)
      as [st ->]; [|by eexists].
    intros p v Hin st. apply string_props_fields in Hin as [Hp Hv].
    by apply for_in_body_field_Ok.
  - cbn [text_terms] in Ht. rewrite forallb_forall in Ht.
    rewrite Forall_forall in IH.
    destruct (forEach_Ok buildQuery_op elems) with (parts := [] : list string)
      as [parts ->]; [|by eexists].
    intros x Hx. apply (IH x); [by apply list_elem_of_In | by apply Ht].
  - cbn [text_terms] in Ht. rewrite forallb_forall in Ht.
    rewrite Forall_forall in IH.
    destruct (for_in_Ok buildQuery_op props) with (st := ([], None) : acc)
      as [st ->]; [|by eexists].
    intros p v Hin st. specialize (Ht _ Hin). cbn in Ht.
    destruct (reserved p) eqn:Hp.
    + apply for_in_body_operator_Ok; [done|]. intros op.
      apply (IH (p, v)); [by apply list_elem_of_In | done].
    + rewrite for_in_field by done.
      destruct (toString_has_text v Ht) as [text ->]. by eexists.
Qed.

(** The loop only ever adds parts. *)
Lemma for_in_keeps_parts rec props :
  forall st st' part,
    for_in rec props st = Ok st' -> In part (fst st) -> In part (fst st').
Proof.
  induction props as [|[p v] rest IH]; intros st st' part Hrun Hin.
  - by injection Hrun as <-.
  - rewrite for_in_cons_merge in Hrun.
    destruct (contribution rec p v) as [c|e]; [|done].
    apply (IH _ _ _ Hrun). cbn [merge fst]. apply in_or_app. by left.
Qed.

Lemma for_in_field_part rec props p v text :
  In (p, v) props -> reserved p = false -> toString v = Ok text ->
  forall st st', for_in rec props st = Ok st' -> In (p +:+ ":" +:+ text) (fst st').
Proof.
  intros Hin Hp Hv. induction props as [|[p' v'] rest IH]; intros st st' Hrun; [done|].
  rewrite for_in_cons in Hrun. apply bind_Ok in Hrun as (st1 & Hbody & Hrun).
  destruct Hin as [Heq | Hin].
  - injection Heq as -> ->. rewrite for_in_field, Hv in Hbody by done.
    injection Hbody as <-. apply (for_in_keeps_parts _ _ _ _ _ Hrun).
    cbn [fst]. apply in_or_app. right. by left.
  - by apply (IH Hin st1).
Qed.

(** C1, as the code has it: a descriptor that holds, at any depth (in the
    mapping, in an element of a list, in the operand of [$or], [$and] or
    [$not]), a field term whose value is [null] or [undefined] makes the
    compiler raise a [TypeError] at once.  A plain object (one with no
    property named [toString]) as the value of a field term raises nothing:
    a descriptor whose field terms hold strings, numbers, booleans or plain
    objects always compiles, and in any mapping such a field term is
    written among the parts as [key:[object Object]]. *)
Theorem field_value_rendering :
  (forall search operator,
      has_null_term search = true -> buildQuery search operator = Throw TypeError)
  /\ (forall props operator p v,
        In (p, v) props -> reserved p = false -> v = VNull \/ v = VUndefined ->
        buildQuery (VObj props) operator = Throw TypeError)
  /\ (forall search operator,
        text_terms search = true -> exists q, buildQuery search operator = Ok q)
  /\ (forall props p o st,
        In (p, VObj o) props -> reserved p = false -> has_own "toString" o = false ->
        for_in buildQuery_op props ([], None) = Ok st ->
        In (p +:+ ":[object Object]") (fst st))
  /\ (forall p o operator,
        reserved p = false ->
        has_own "toString" o = false ->
        buildQuery (VObj [(p, VObj o)]) operator = Ok (p +:+ ":[object Object]")).
Proof.
  assert (Hraise : forall search operator,
             has_null_term search = true -> buildQuery search operator = Throw TypeError).
  { intros search operator Hnull. unfold buildQuery.
    destruct (null_term_throws search Hnull (operator_or_AND operator)) as [e He].
    by rewrite He, (buildQuery_op_TypeError _ _ _ He). }
  split; [exact Hraise|]. split; [|split; [|split]].
  - intros props operator p v Hin Hp Hv. apply Hraise.
    cbn [has_null_term]. apply existsb_exists. exists (p, v).
    split; [done|]. rewrite Hp. by destruct Hv as [-> | ->].
  - intros search operator Ht. unfold buildQuery. by apply text_terms_compile.
  - intros props p o st Hin Hp Ho Hrun.
    apply (for_in_field_part buildQuery_op props p (VObj o) "[object Object]" Hin Hp)
      with (st := ([], None)); [|done].
    cbn [toString ToString]. by rewrite Ho.
  - intros p o operator Hp Ho. unfold buildQuery.
    rewrite buildQuery_op_obj, for_in_cons, for_in_field by done.
    cbn [toString ToString]. by rewrite Ho.
Qed.

Lemma field_value_rendering_witness :
  buildQuery (VArr [VObj [("a", VNum 1)];
                    VObj [("$or", VArr [VObj [("$not", VObj [("b", VNull)])]])]])
             None = Throw TypeError
  /\ buildQuery (VObj [("a", VNum 1); ("b", VUndefined)]) None = Throw TypeError
  /\ (exists q,
        buildQuery (VObj [("$or", VArr [VObj [("a", VObj [("b", VNum 1)])];
                                        VObj [("c", VStr "x")]])]) None = Ok q)
  /\ In ("a" +:+ ":[object Object]") ["c:1"; "a:[object Object]"]
  /\ buildQuery (VObj [("a", VObj [("b", VNum 1)])]) (Some "OR")
     = Ok ("a" +:+ ":[object Object]").
Proof.
  destruct field_value_rendering as (Hdeep & Hflat & Htext & Hpart & Hone).
  split; [apply Hdeep; reflexivity|].
  split.
  { apply (Hflat _ None "b" VUndefined).
    - right. left. reflexivity.
    - reflexivity.
    - right. reflexivity. }
  split; [apply Htext; reflexivity|].
  split.
  { apply (Hpart [("c", VNum 1); ("a", VObj [("b", VNum 1)])] "a" [("b", VNum 1)]
             (["c:1"; "a:[object Object]"], None)).
    - right. left. reflexivity.
    - reflexivity.
    - reflexivity.
    - reflexivity. }
  apply (Hone "a"); reflexivity.
Defined.
End FieldValues.

(** ** More on the single-shot operations *)

Section ApiExtras.
Import Api.

Lemma normalize_spec options k h :
  exists l h1,
    normalize options k h
    = (l, match options with ArgFunction f => user f | _ => k end, h1)
    /\ ((options = ArgObject l /\ h1 = h)
        \/ ((forall l', options <> ArgObject l') /\ h !! l = None /\ h1 = <[l := []]> h)).
Proof.
  assert (Hfresh : h !! fresh (dom h) = None).
  { apply not_elem_of_dom, is_fresh. }
  destruct options as [|f|l]; cbn [normalize alloc].
  - exists (fresh (dom h)), (<[fresh (dom h) := []]> h). split; [done|]. by right.
  - exists (fresh (dom h)), (<[fresh (dom h) := []]> h). split; [done|]. by right.
  - exists l, h. split; [done|]. by left.
Qed.

Lemma normalize_frame options k h l h1 k' l' :
  normalize options k h = (l, k', h1) ->
  is_Some (h !! l') -> options <> ArgObject l' ->
  l <> l' /\ h1 !! l' = h !! l'.
Proof.
  intros Hn [o Ho] Hopt.
  destruct (normalize_spec options k h) as (l0 & h0 & Heq & Hcases).
  rewrite Heq in Hn. injection Hn as <- _ <-.
  destruct Hcases as [[-> ->] | (_ & Hnone & ->)].
  - split; [congruence | done].
  - assert (l0 <> l') by congruence. split; [done|]. by rewrite lookup_insert_ne.
Qed.

Lemma query_at_frame search l k h l' :
  l <> l' -> snd (query_at search l k h) !! l' = h !! l'.
Proof.
  intros Hne. rewrite query_at_unfold.
  repeat case_match; cbn [snd]; by rewrite ?lookup_insert_ne.
Qed.

Lemma query_settle_traced_quiet cb o :
  query_settle (user cb) o = Ok (fst (query_settle_traced (invoke (quiet cb)) o)).
Proof.
  destruct o as [[st d]|e]; [|done].
  unfold query_settle, query_settle_traced, query_then, query_then_traced.
  cbn [status data]. by destruct (negb (st =? 200)).
Qed.

(** X7: the handlers [query] chains on its request.  The callback is
    called first with the body and no error exactly when the request is
    answered with status 200, and otherwise with an error and no result
    (the error of the transport when the request failed).  A callback that
    does not throw is called this once.  A callback that throws on this
    call while the request was answered is called a second time, by the
    [catch] handler, with the exception it threw; what it throws then, or
    when the request failed, is left unhandled.  The handlers of the
    request [query] returns are these, for a callback that does not throw. *)
Theorem query_callback_calls search options callback h req h' :
  query search options callback h = (Ok req, h') ->
  (forall o,
      settle req o
      = Ok (fst (query_settle_traced
                   (invoke (quiet match options with ArgFunction f => f | _ => callback end))
                   o)))
  /\ (forall f o,
        exists err res,
          (err = None <-> o = Fulfilled (Response 200 res))
          /\ (err <> None -> res = VUndefined)
          /\ (forall e, o = Rejected e -> err = Some e)
          /\ query_settle_traced (invoke f) o =
             match handler_throws f err res, o with
             | None, _ => ([Call (handler_fn f) err res], None)
             | Some e, Fulfilled _ =>
                 ([Call (handler_fn f) err res; Call (handler_fn f) (Some e) VUndefined],
                  handler_throws f (Some e) VUndefined)
             | Some e, Rejected _ => ([Call (handler_fn f) err res], Some e)
             end).
Proof.
  intros H. split.
  - intros o. unfold query, query_k in H.
    destruct (normalize_spec options (user callback) h) as (l & h1 & Hn & _).
    rewrite Hn in H.
    apply query_at_Ok in H as (q & u & ob & fr & _ & _ & _ & _ & -> & _).
    cbn [settle]. destruct options; apply query_settle_traced_quiet.
  - intros f o. destruct o as [[st d]|e];
      unfold query_settle_traced, query_then_traced, then_catch, invoke; cbn [status data].
    + destruct (Z.eqb_spec st 200) as [->|Hst]; cbn [negb].
      * exists None, d. split; [done|]. split; [done|]. split; [done|].
        destruct (handler_throws f None d); reflexivity.
      * exists (Some (Error "unexpected status code : undefined")), VUndefined.
        split; [split; [done|]; intros Heq; by injection Heq as Hst' _|].
        split; [done|]. split; [done|].
        destruct (handler_throws f _ VUndefined); reflexivity.
    + exists (Some e), VUndefined. split; [done|]. split; [done|].
      split; [intros e' Heq; by injection Heq as ->|].
      destruct (handler_throws f (Some e) VUndefined); reflexivity.
Qed.

Lemma query_callback_calls_witness :
  exists req h',
    query (VStr "docid:1") ArgUndefined 3%nat ∅ = (Ok req, h')
    /\ settle req (Rejected (Error "ECONNRESET"))
       = Ok [Call 3%nat (Some (Error "ECONNRESET")) VUndefined]
    /\ settle req (Fulfilled (Response 200 (VStr "body")))
       = Ok [Call 3%nat None (VStr "body")].
Proof.
  eexists _, _. split; [reflexivity|].
  pose proof (query_callback_calls (VStr "docid:1") ArgUndefined 3%nat ∅ _ _ eq_refl)
    as [Hq _].
  split; [exact (Hq (Rejected (Error "ECONNRESET")))|].
  exact (Hq (Fulfilled (Response 200 (VStr "body")))).
Defined.

Lemma find_unfold search options callback h :
  exists l h1,
    find search options callback h =
    query_at search l
      (find_callback (user match options with ArgFunction f => f | _ => callback end))
      h1
    /\ (forall l', is_Some (h !! l') -> options <> ArgObject l' ->
        l <> l' /\ h1 !! l' = h !! l')
    /\ (forall l', options = ArgObject l' -> l = l' /\ h1 = h).
Proof.
  assert (Hfresh : h !! fresh (dom h) = None).
  { apply not_elem_of_dom, is_fresh. }
  assert (Hframe : forall l', is_Some (h !! l') ->
            fresh (dom h) <> l' /\ <[fresh (dom h) := []]> h !! l' = h !! l').
  { intros l' [o Ho]. assert (fresh (dom h) <> l') by congruence.
    split; [done|]. by rewrite lookup_insert_ne. }
  unfold find, query_k. destruct options as [|f|l]; cbn [normalize alloc].
  - exists (fresh (dom h)), (<[fresh (dom h) := []]> h).
    split; [done|]. split; [by intros l' Hl' _; apply Hframe | done].
  - exists (fresh (dom h)), (<[fresh (dom h) := []]> h).
    split; [done|]. split; [by intros l' Hl' _; apply Hframe | done].
  - exists l, h. split; [done|]. split.
    + intros l' _ Hne. split; [congruence | done].
    + intros l' Heq. by injection Heq as ->.
Qed.

Lemma member_docs_truthy response :
  truthy response = true -> exists v, member "docs" response = Ok v.
Proof. destruct response; try discriminate; by eexists. Qed.

Lemma find_settle_traced_quiet cb o :
  query_settle (find_callback (user cb)) o
  = Ok (fst (query_settle_traced (find_callback_traced (invoke (quiet cb))) o)).
Proof.
  destruct o as [[st body]|e]; [|done].
  unfold query_settle, query_settle_traced, query_then, query_then_traced,
    find_callback, find_callback_traced.
  cbn [status data]. destruct (negb (st =? 200)); [done|].
  destruct (member "response" body) as [response|e]; [|done]. cbn [bind].
  destruct (truthy response) eqn:Ht; [|done].
  destruct (member_docs_truthy response Ht) as [v ->]. by destruct v.
Qed.

(** X8: the handlers [find] chains on its request.  The callback is called
    first without an error only on an answer of status 200 whose
    [response.docs] is an array, and then with that array, be it empty; in
    every other case it is called with an error.  A callback that does not
    throw is called this once.  A callback that throws on this call is
    called a second time, with the exception it threw, when the call was
    made while handling the answer; when the call was made by the [catch]
    handler (the request failed, or the body has no [response] to read),
    its exception is left unhandled.  The handlers of the request [find]
    returns are these, for a callback that does not throw. *)
Theorem find_callback_calls search options callback h req h' :
  find search options callback h = (Ok req, h') ->
  (forall o,
      settle req o
      = Ok (fst (query_settle_traced
                   (find_callback_traced
                      (invoke (quiet match options with ArgFunction f => f | _ => callback end)))
                   o)))
  /\ (forall f o,
        exists err res in_catch,
          (err = None ->
           exists body response docs,
             o = Fulfilled (Response 200 body)
             /\ member "response" body = Ok response
             /\ member "docs" response = Ok (VArr docs)
             /\ res = VArr docs)
          /\ (in_catch = true <->
              (exists e, o = Rejected e)
              \/ (exists body e, o = Fulfilled (Response 200 body)
                                 /\ member "response" body = Throw e))
          /\ query_settle_traced (find_callback_traced (invoke f)) o =
             match handler_throws f err res with
             | None => ([Call (handler_fn f) err res], None)
             | Some e =>
                 if in_catch then ([Call (handler_fn f) err res], Some e)
                 else ([Call (handler_fn f) err res;
                        Call (handler_fn f) (Some e) VUndefined],
                       handler_throws f (Some e) VUndefined)
             end)
  /\ (forall f docs numFound mark,
        query_settle_traced (find_callback_traced (invoke f))
          (Fulfilled (Response 200 (solr_result docs numFound mark))) =
        match handler_throws f None (VArr docs) with
        | None => ([Call (handler_fn f) None (VArr docs)], None)
        | Some e =>
            ([Call (handler_fn f) None (VArr docs);
              Call (handler_fn f) (Some e) VUndefined],
             handler_throws f (Some e) VUndefined)
        end).
Proof.
  intros H. split; [|split].
  - intros o. destruct (find_unfold search options callback h) as (l & h1 & Heq & _).
    rewrite Heq in H.
    apply query_at_Ok in H as (q & u & ob & fr & _ & _ & _ & _ & -> & _).
    cbn [settle]. apply find_settle_traced_quiet.
  - intros f o. destruct o as [[st body]|e0];
      unfold query_settle_traced, query_then_traced, find_callback_traced, then_catch,
        invoke; cbn [status data].
    + destruct (Z.eqb_spec st 200) as [->|Hst]; cbn [negb].
      * destruct (member "response" body) as [response|e] eqn:Hr.
        -- destruct (truthy response) eqn:Ht.
           ++ destruct (member_docs_truthy response Ht) as [v Hv]. rewrite Hv.
              assert (Hnot : false = true
                             <-> (exists e, Fulfilled (Response 200 body) = Rejected e)
                                 \/ (exists body' e,
                                        Fulfilled (Response 200 body)
                                        = Fulfilled (Response 200 body')
                                        /\ member "response" body' = Throw e)).
              { split; [done|]. intros [[e He] | (body' & e & Hb & He)]; [done|].
                injection Hb as <-. congruence. }
              destruct v as [| | | | |docs|];
                try (exists (Some (Error "unexpected result, documents not found")),
                       VUndefined, false;
                     split; [done|]; split; [exact Hnot|];
                     destruct (handler_throws f _ VUndefined); reflexivity).
              exists None, (VArr docs), false.
              split; [by intros _; exists body, response, docs|].
              split; [exact Hnot|].
              destruct (handler_throws f None (VArr docs)); reflexivity.
           ++ exists (Some (Error "unexpected result, documents not found")),
                VUndefined, false.
              split; [done|]. split.
              { split; [done|]. intros [[e He] | (body' & e & Hb & He)]; [done|].
                injection Hb as <-. congruence. }
              destruct (handler_throws f _ VUndefined); reflexivity.
        -- exists (Some e), VUndefined, true. split; [done|]. split.
           { split; [|done]. intros _. right. by exists body, e. }
           cbn [app]. destruct (handler_throws f (Some e) VUndefined); reflexivity.
      * exists (Some (Error "unexpected status code : undefined")), VUndefined, false.
        split; [done|]. split.
        { split; [done|]. intros [[e He] | (body' & e & Hb & He)]; [done|].
          injection Hb as Hst' _. done. }
        destruct (handler_throws f _ VUndefined); reflexivity.
    + exists (Some e0), VUndefined, true. split; [done|]. split.
      { split; [|done]. intros _. left. by exists e0. }
      destruct (handler_throws f (Some e0) VUndefined); reflexivity.
  - intros f docs numFound mark.
    unfold query_settle_traced, query_then_traced, find_callback_traced, then_catch,
      invoke, solr_result.
    cbn. destruct (handler_throws f None (VArr docs)); reflexivity.
Qed.

Lemma find_callback_calls_witness :
  exists req h',
    find (VObj []) (ArgFunction 2%nat) 0%nat ∅ = (Ok req, h')
    /\ settle req (Fulfilled (Response 200 (solr_result [] 0 "*")))
       = Ok [Call 2%nat None (VArr [])].
Proof.
  eexists _, _. split; [reflexivity|].
  pose proof (find_callback_calls (VObj []) (ArgFunction 2%nat) 0%nat ∅ _ _ eq_refl)
    as [Hf _].
  exact (Hf (Fulfilled (Response 200 (solr_result [] 0 "*")))).
Defined.

(** X9: a descriptor the compiler rejects makes [query] and [find] raise
    at once, before the options object is touched and before any request:
    the heap is as it was.  [findOne] raises too, but after it has written
    [rows = 1] into the caller's options. *)
Theorem descriptor_error_is_raised_before_any_request search l callback h e :
  query_text search = Throw e ->
  query search (ArgObject l) callback h = (Throw e, h)
  /\ find search (ArgObject l) callback h = (Throw e, h)
  /\ findOne search (ArgObject l) callback h
     = (Throw e, <[l := set_prop "rows" (VNum 1) (load l h)]> h)
  /\ e = TypeError.
Proof.
  intros H. unfold query, find, findOne, query_k. cbn [normalize].
  rewrite !query_at_unfold, H. repeat split.
  unfold query_text in H. destruct search; try discriminate;
    apply bind_Throw in H as [H | (q & _ & H)]; try discriminate;
    unfold Compiler.buildQuery in H; by apply buildQuery_op_TypeError in H.
Qed.

Lemma descriptor_error_is_raised_before_any_request_witness :
  query (VObj [("title_s", VNull)]) (ArgObject 1%positive) 0%nat
        {[ 1%positive := [("rows", VNum 20)] ]}
  = (Throw TypeError, {[ 1%positive := [("rows", VNum 20)] ]}).
Proof.
  apply (descriptor_error_is_raised_before_any_request
           (VObj [("title_s", VNull)]) 1%positive 0%nat
           {[ 1%positive := [("rows", VNum 20)] ]} TypeError).
  reflexivity.
Defined.

(** X10: no operation touches an object of the heap other than the options
    object it is given; called without one (or with the callback in its
    place) it leaves every object of the caller as it was. *)
Theorem other_objects_are_untouched search options callback h l' :
  is_Some (h !! l') ->
  options <> ArgObject l' ->
  snd (query search options callback h) !! l' = h !! l'
  /\ snd (find search options callback h) !! l' = h !! l'
  /\ snd (findOne search options callback h) !! l' = h !! l'.
Proof.
  intros Hl' Hopt. split; [|split].
  - unfold query, query_k.
    destruct (normalize options (user callback) h) as [[l k] h1] eqn:Hn.
    destruct (normalize_frame _ _ _ _ _ _ _ Hn Hl' Hopt) as [Hne Hh1].
    by rewrite query_at_frame.
  - destruct (find_unfold search options callback h) as (l & h1 & -> & Hframe & _).
    destruct (Hframe l' Hl' Hopt) as [Hne Hh1]. by rewrite query_at_frame.
  - unfold findOne.
    destruct (normalize options (user callback) h) as [[l k] h1] eqn:Hn.
    destruct (normalize_frame _ _ _ _ _ _ _ Hn Hl' Hopt) as [Hne Hh1].
    rewrite query_k_object, query_at_frame by done.
    by rewrite lookup_insert_ne.
Qed.

Lemma other_objects_are_untouched_witness :
  snd (findOne (VObj []) (ArgObject 1%positive) 0%nat
         {[ 1%positive := [("fields", VStr "docid")];
            2%positive := [("proxy", VStr "p")] ]}) !! 2%positive
  = Some [("proxy", VStr "p")].
Proof.
  refine (eq_trans
            (proj2 (proj2 (other_objects_are_untouched (VObj []) (ArgObject 1%positive)
                             0%nat _ 2%positive _ _))) _).
  - by eexists.
  - discriminate.
  - reflexivity.
Defined.

Lemma get_prop_delete_eq k o : get_prop k (delete_prop k o) = VUndefined.
Proof.
  induction o as [|[k0 v0] rest IH]; [done|].
  rewrite delete_prop_cons. destruct (String.eqb_spec k0 k) as [->|Hk]; [done|].
  cbn [get_prop]. by destruct (String.eqb_spec k0 k).
Qed.

Lemma has_own_false_take_proxy o : has_own "proxy" o = false -> take_proxy o = (None, o).
Proof. intros H. unfold take_proxy. by rewrite H. Qed.

(** The options object as a successful [query] leaves it: nothing is left
    for a later [query] to rewrite. *)
Lemma normalized_is_stable o o' :
  join_fl (alias_fields (snd (take_proxy o))) = Ok o' ->
  take_proxy o' = (None, o') /\ alias_fields o' = o' /\ join_fl o' = Ok o'.
Proof.
  intros Hj.
  assert (Hproxy : has_own "proxy" o' = false).
  { rewrite (has_own_join_fl _ _ _ Hj), has_own_alias_fields by done.
    apply has_own_take_proxy. }
  assert (Hfields : truthy (get_prop "fields" o') = false).
  { rewrite (get_prop_join_fl _ _ _ Hj) by done. unfold alias_fields.
    destruct (truthy (get_prop "fields" (snd (take_proxy o)))) eqn:Ht; [|done].
    by rewrite get_prop_delete_eq. }
  assert (Hfl : forall elems, get_prop "fl" o' <> VArr elems).
  { intros elems Heq. pose proof (get_prop_fl_join_fl _ _ Hj) as Hfl.
    rewrite Heq in Hfl. unfold joined in Hfl.
    destruct (get_prop "fl" (alias_fields (snd (take_proxy o)))); try discriminate.
    by apply bind_Ok in Hfl as (text & _ & Hfl). }
  split; [by apply has_own_false_take_proxy|]. split.
  - unfold alias_fields. by rewrite Hfields.
  - unfold join_fl. destruct (get_prop "fl" o') eqn:Heq; try done.
    by destruct (Hfl elems).
Qed.

(** X11: an options object that has served one successful [query] is left
    alone by any later [query] on it; and since the first call moved the
    [proxy] out of the object, the later request is made without a proxy. *)
Theorem options_object_reused_loses_proxy search1 search2 l cb1 cb2 h req1 h1 :
  query search1 (ArgObject l) cb1 h = (Ok req1, h1) ->
  snd (query search2 (ArgObject l) cb2 h1) = h1
  /\ (forall req2 h2,
        query search2 (ArgObject l) cb2 h1 = (Ok req2, h2) -> proxy req2 = None).
Proof.
  unfold query. rewrite !query_k_object. intros H1.
  apply query_at_Ok in H1 as (q & u & o & fr & _ & _ & Hj & _ & _ & ->).
  destruct (normalized_is_stable _ _ Hj) as (Hproxy & Hfields & Hfl).
  assert (Hid : <[l := o]> (<[l := o]> h) = <[l := o]> h) by apply insert_insert_eq.
  rewrite query_at_unfold, load_insert, Hproxy. cbn [fst snd].
  rewrite Hfields, Hfl. split.
  - repeat case_match; cbn [snd]; done.
  - intros req2 h2 H2. repeat case_match; try discriminate.
    by injection H2 as <- _.
Qed.

Lemma options_object_reused_loses_proxy_witness :
  exists req1 h1 req2 h2,
    query (VObj []) (ArgObject 1%positive) 0%nat
          {[ 1%positive := [("proxy", VStr "http://proxy:3128"); ("rows", VNum 5)] ]}
    = (Ok req1, h1)
    /\ proxy req1 = Some (VStr "http://proxy:3128")
    /\ query (VObj []) (ArgObject 1%positive) 0%nat h1 = (Ok req2, h2)
    /\ proxy req2 = None.
Proof.
  eexists _, _, _, _. split; [reflexivity|]. split; [reflexivity|].
  split; [reflexivity|].
  pose proof (options_object_reused_loses_proxy (VObj []) (VObj []) 1%positive
                0%nat 0%nat
                {[ 1%positive := [("proxy", VStr "http://proxy:3128");
                                  ("rows", VNum 5)] ]}) as Hreused.
  destruct (Hreused _ _ eq_refl) as [_ Hproxy].
  exact (Hproxy _ _ eq_refl).
Defined.

Lemma mapM_Ok_length {A B} (f : A -> result B) xs ys :
  mapM f xs = Ok ys -> length ys = length xs.
Proof.
  revert ys. induction xs as [|x rest IH]; intros ys.
  - intros H. by injection H as <-.
  - cbn [mapM]. intros (y & _ & (ys' & Hys & Heq)%bind_Ok)%bind_Ok.
    injection Heq as <-. cbn. by rewrite (IH ys').
Qed.

Lemma mapM_Ok_In_inv {A B} (f : A -> result B) xs ys y :
  mapM f xs = Ok ys -> In y ys -> exists x, In x xs /\ f x = Ok y.
Proof.
  revert ys. induction xs as [|x rest IH]; intros ys.
  - intros H. by injection H as <-.
  - cbn [mapM]. intros (y' & Hy' & (ys' & Hys & Heq)%bind_Ok)%bind_Ok.
    injection Heq as <-. intros [<- | Hin].
    + exists x. split; [by left | done].
    + destruct (IH ys' Hys Hin) as (x' & Hx' & Hfx). exists x'. split; [by right | done].
Qed.

Lemma base_url_ext o1 o2 query :
  get_prop "host" o1 = get_prop "host" o2 ->
  get_prop "core" o1 = get_prop "core" o2 ->
  base_url o1 query = base_url o2 query.
Proof. unfold base_url. by intros -> ->. Qed.

Lemma mapM_Forall2 {A B} (f : A -> result B) xs ys :
  mapM f xs = Ok ys -> Forall2 (fun x y => f x = Ok y) xs ys.
Proof.
  revert ys. induction xs as [|x rest IH]; intros ys.
  - intros H. injection H as <-. constructor.
  - cbn [mapM]. intros (y & Hy & (ys' & Hys & Heq)%bind_Ok)%bind_Ok.
    injection Heq as <-. constructor; [done | by apply IH].
Qed.

(** X12: the URL [query] requests is the base URL, made from the [host] and
    [core] options and the escaped query text, followed by one [&key=value]
    for every option the object is left with, in the order [for ... in]
    visits them (the fragments match the options one by one), the value
    written as it converts to text, without escaping; [core] is the only
    option left out, so [host] is sent as a parameter as well. *)
Theorem every_option_but_core_is_sent search l callback h req h' :
  query search (ArgObject l) callback h = (Ok req, h') ->
  exists text base fragments,
    query_text search = Ok text
    /\ base_url (load l h) text = Ok base
    /\ url req = base +:+ String.concat "" fragments
    /\ Forall2 (fun kv f => exists t, ToString (snd kv) = Ok t
                                      /\ f = "&" +:+ fst kv +:+ "=" +:+ t)
               (filter (fun kv => fst kv <> "core") (load l h')) fragments
    /\ length fragments = length (filter (fun kv => fst kv <> "core") (load l h'))
    /\ (forall k v,
          In (k, v) (load l h') -> k <> "core" ->
          exists t, ToString v = Ok t /\ In ("&" +:+ k +:+ "=" +:+ t) fragments)
    /\ (forall f,
          In f fragments ->
          exists k v t,
            In (k, v) (load l h') /\ k <> "core" /\ ToString v = Ok t
            /\ f = "&" +:+ k +:+ "=" +:+ t).
Proof.
  unfold query. rewrite query_k_object. intros H.
  apply query_at_Ok in H as (text & base & o & fragments & Ht & Hb & Hj & Hf & -> & ->).
  exists text, base, fragments. rewrite load_insert. cbn [url].
  split; [done|]. split.
  { rewrite <- Hb. apply base_url_ext; by rewrite get_prop_take_proxy. }
  split; [done|]. split.
  { apply mapM_Forall2 in Hf. eapply Forall2_impl; [exact Hf|].
    intros kv f Hkv. unfold option_fragment in Hkv.
    apply bind_Ok in Hkv as (t & Ht' & Heq). injection Heq as <-. by exists t. }
  split; [by apply mapM_Ok_length in Hf|]. split.
  - intros k v Hin Hk. by apply (option_fragment_In k v o).
  - intros f Hin. destruct (mapM_Ok_In_inv _ _ _ _ Hf Hin) as ([k v] & Hkv & Hfrag).
    apply list_elem_of_In, list_elem_of_filter in Hkv as [Hk Hkv].
    unfold option_fragment in Hfrag. apply bind_Ok in Hfrag as (t & Ht' & Heq).
    injection Heq as <-. exists k, v, t. by rewrite <- list_elem_of_In.
Qed.

Lemma every_option_but_core_is_sent_witness :
  exists req h',
    query (VStr "docid:1") (ArgObject 1%positive) 0%nat
          {[ 1%positive := [("core", VStr "ref/author"); ("host", VStr "http://h");
                            ("rows", VNum 5)] ]}
    = (Ok req, h')
    /\ url req = "http://h/ref/author/?wt=json&q=docid%3A1&host=http://h&rows=5".
Proof.
  eexists _, _. split; [reflexivity|].
  pose proof (every_option_but_core_is_sent (VStr "docid:1") 1%positive 0%nat
                {[ 1%positive := [("core", VStr "ref/author"); ("host", VStr "http://h");
                                  ("rows", VNum 5)] ]}) as Hsent.
  destruct (Hsent _ _ eq_refl) as (text & base & fragments & _).
  reflexivity.
Defined.

(** X21: called without options (or with the callback in their place),
    [query] and [find] request the default search endpoint with the escaped
    query text and nothing else, without a proxy, and [findOne] requests the
    same URL followed by [&rows=1]; a descriptor that compiles always gets
    its request sent. *)
Theorem request_without_options search options callback h text :
  query_text search = Ok text ->
  (forall l, options <> ArgObject l) ->
  exists req1 req2 req3 h1 h2 h3,
    query search options callback h = (Ok req1, h1)
    /\ find search options callback h = (Ok req2, h2)
    /\ findOne search options callback h = (Ok req3, h3)
    /\ url req1 = "http://api.archives-ouvertes.fr/search/?wt=json&q="
                  +:+ encodeURIComponent text
    /\ url req2 = url req1
    /\ url req3 = ("http://api.archives-ouvertes.fr/search/?wt=json&q="
                   +:+ encodeURIComponent text) +:+ "&rows=1"
    /\ proxy req1 = None /\ proxy req2 = None /\ proxy req3 = None.
Proof.
  intros Ht Hopt.
  assert (Hnil : forall s : string, s +:+ "" = s).
  { intros s. induction s as [|c s IH]; [done|].
    change (String c s +:+ "") with (String c (s +:+ "")). by rewrite IH. }
  assert (Hq : forall k (h0 : heap),
            query_at search (fresh (dom h)) k (<[fresh (dom h) := []]> h0)
            = (Ok (Request ("http://api.archives-ouvertes.fr/search/?wt=json&q="
                            +:+ encodeURIComponent text)
                           None (query_settle k)),
               <[fresh (dom h) := []]> (<[fresh (dom h) := []]> h0))).
  { intros k h0. unfold query_at. rewrite Ht, load_insert.
    cbn -[String.append encodeURIComponent]. by rewrite Hnil. }
  assert (Hq1 : forall k (h0 : heap),
            query_at search (fresh (dom h)) k (<[fresh (dom h) := [("rows", VNum 1)]]> h0)
            = (Ok (Request (("http://api.archives-ouvertes.fr/search/?wt=json&q="
                             +:+ encodeURIComponent text) +:+ "&rows=1")
                           None (query_settle k)),
               <[fresh (dom h) := [("rows", VNum 1)]]>
                 (<[fresh (dom h) := [("rows", VNum 1)]]> h0))).
  { intros k h0. unfold query_at. by rewrite Ht, load_insert. }
  destruct options as [|f|l]; [| |by destruct (Hopt l)];
    unfold query, find, findOne, query_k; cbn [normalize alloc];
    rewrite ?load_insert; cbn [set_prop];
    rewrite (Hq (user _)), (Hq (find_callback _)), (Hq1 (findOne_callback _));
    eexists _, _, _, _, _, _; repeat split.
Qed.

Lemma request_without_options_witness :
  exists req h',
    findOne (VObj [("docid", VNum 42)]) ArgUndefined 0%nat ∅ = (Ok req, h')
    /\ url req = "http://api.archives-ouvertes.fr/search/?wt=json&q=docid%3A42&rows=1".
Proof.
  destruct (request_without_options (VObj [("docid", VNum 42)]) ArgUndefined 0%nat ∅
              "docid:42" eq_refl)
    as (req1 & req2 & req3 & h1 & h2 & h3 & _ & _ & H3 & _ & _ & Hurl & _);
    [discriminate|].
  exists req3, h3. split; [exact H3 | exact Hurl].
Defined.
End ApiExtras.

(** ** URL escaping *)

Section EscapeExtras.

Lemma percent_shape c :
  percent c = String "%" (String (hex_digit (nat_of_ascii c / 16))
                            (String (hex_digit (nat_of_ascii c mod 16)) EmptyString)).
Proof. reflexivity. Qed.

Lemma percent_safe c :
  forallb url_safe (list_ascii_of_string (percent c)) = true.
Proof. destruct c as [[] [] [] [] [] [] [] []]; reflexivity. Qed.

Lemma unpercent_percent c :
  unpercent (hex_digit (nat_of_ascii c / 16)) (hex_digit (nat_of_ascii c mod 16)) = c.
Proof. destruct c as [[] [] [] [] [] [] [] []]; reflexivity. Qed.

Lemma list_ascii_of_string_app a b :
  list_ascii_of_string (a +:+ b) = list_ascii_of_string a ++ list_ascii_of_string b.
Proof.
  induction a as [|c a IH]; [done|]. simpl. f_equal. exact IH.
Qed.

Lemma encodeURIComponent_cons c rest :
  encodeURIComponent (String c rest) =
  if unreserved c then String c (encodeURIComponent rest)
  else String "%" (String (hex_digit (nat_of_ascii c / 16))
                     (String (hex_digit (nat_of_ascii c mod 16))
                        (encodeURIComponent rest))).
Proof. cbn [encodeURIComponent]. by destruct (unreserved c). Qed.

(** X13: the escaped query text is made of letters, digits, the marks
    [-_.!~*'()] and percent signs only: none of [&], [=], [?], [#], [/],
    [+] or a space is left in it, whatever the text. *)
Theorem escaped_text_is_url_safe s :
  forallb url_safe (list_ascii_of_string (encodeURIComponent s)) = true
  /\ (forall c,
        In c (list_ascii_of_string "&=?#/+ ") ->
        ~ In c (list_ascii_of_string (encodeURIComponent s))).
Proof.
  assert (Hsafe : forallb url_safe (list_ascii_of_string (encodeURIComponent s)) = true).
  { induction s as [|c rest IH]; [done|].
    cbn [encodeURIComponent]. rewrite list_ascii_of_string_app, forallb_app, IH.
    rewrite andb_true_r. destruct (unreserved c) eqn:Hc; [|apply percent_safe].
    cbn. unfold url_safe. by rewrite Hc. }
  split; [done|]. intros c Hc Hin. rewrite forallb_forall in Hsafe.
  specialize (Hsafe c Hin).
  cbn in Hc. destruct Hc as [<- | [<- | [<- | [<- | [<- | [<- | [<- | []]]]]]]];
    discriminate Hsafe.
Qed.

(** X14: escaping distributes over concatenation, leaves a text of
    unreserved characters as it is, and loses nothing: two texts with the
    same escaped form are the same text. *)
Theorem escaping_is_injective :
  (forall a b, encodeURIComponent (a +:+ b) = encodeURIComponent a +:+ encodeURIComponent b)
  /\ (forall s, forallb unreserved (list_ascii_of_string s) = true ->
                encodeURIComponent s = s)
  /\ (forall s1 s2, encodeURIComponent s1 = encodeURIComponent s2 -> s1 = s2).
Proof.
  split; [|split].
  - intros a b. induction a as [|c a IH]; [done|].
    change (encodeURIComponent (String c a +:+ b))
      with ((if unreserved c then String c EmptyString else percent c)
            +:+ encodeURIComponent (a +:+ b)).
    rewrite IH. cbn [encodeURIComponent]. by destruct (unreserved c).
  - intros s. induction s as [|c rest IH]; [done|]. cbn [list_ascii_of_string forallb].
    intros [Hc Hrest]%andb_prop. rewrite encodeURIComponent_cons, Hc. by rewrite IH.
  - intros s1. induction s1 as [|c1 r1 IH]; intros [|c2 r2] H.
    + done.
    + rewrite encodeURIComponent_cons in H. cbn in H. by destruct (unreserved c2).
    + rewrite encodeURIComponent_cons in H. cbn in H. by destruct (unreserved c1).
    + rewrite !encodeURIComponent_cons in H.
      destruct (unreserved c1) eqn:H1, (unreserved c2) eqn:H2.
      * injection H as -> H. by rewrite (IH r2 H).
      * injection H as -> _. discriminate H1.
      * injection H as <- _. discriminate H2.
      * assert (Hc : c1 = c2).
        { pose proof (f_equal (fun s => match s with
                                        | String _ (String h (String l _)) => unpercent h l
                                        | _ => "0"%char
                                        end) H) as Hf.
          etrans; [symmetry; apply unpercent_percent|].
          etrans; [exact Hf|]. apply unpercent_percent. }
        subst c2. injection H as H. by rewrite (IH r2 H).
Qed.

Lemma escaped_text_is_url_safe_witness :
  ~ In "&"%char (list_ascii_of_string (encodeURIComponent "title_t:a&b=c d")).
Proof.
  apply (proj2 (escaped_text_is_url_safe "title_t:a&b=c d")).
  left. reflexivity.
Defined.

Lemma escaping_is_injective_witness :
  encodeURIComponent "docid_42" = "docid_42".
Proof.
  apply (proj1 (proj2 escaping_is_injective)). reflexivity.
Defined.
End EscapeExtras.

(** ** More on the cursor stream *)

Section StreamExtras.
Import Stream.


Lemma stringify_field_In k s o :
  get_prop k o = VStr s ->
  In ((encodeURIComponent k +:+ "=") +:+ encodeURIComponent s)
     (concat (map stringify_field o)).
Proof.
  intros Hget. apply in_concat. exists (stringify_field (k, VStr s)).
  split; [|by left].
  apply (in_map stringify_field o (k, VStr s)).
  rewrite <- Hget. apply get_prop_In. by rewrite Hget.
Qed.


Lemma on_fulfilled_continue_eq p w :
  counter (self w) + Z.of_nat (length (docs p)) < numFound p ->
  on_fulfilled p w =
  let s := MkStream (reading (self w))
                    (counter (self w) + Z.of_nat (length (docs p)))
                    (urlBase (self w)) (params (self w)) in
  let h := <[params (self w) :=
               set_prop "cursorMark" (VStr (nextCursorMark p))
                        (load (params (self w)) (store w))]> (store w) in
  let w1 := World s h (signals w ++ map Push (docs p)) (issued w) (pending w) in
  World s h (signals w ++ map Push (docs p))
        (issued w ++ [page_url w1]) (pending w ++ [page_url w1]).
Proof.
  intros Hlt. unfold on_fulfilled. rewrite push_docs_eq.
  unfold next_or_end. cbn [self counter].
  apply Z.ltb_lt in Hlt. by rewrite Hlt.
Qed.

Lemma string_app_nil_r (a : string) : a +:+ "" = a.
Proof.
  induction a as [|c a IH]; [done|].
  change (String c a +:+ "") with (String c (a +:+ "")). by rewrite IH.
Qed.

Lemma string_app_assoc (a b c : string) : (a +:+ b) +:+ c = a +:+ b +:+ c.
Proof.
  induction a as [|x a IH]; [done|].
  change ((String x a +:+ b) +:+ c) with (String x ((a +:+ b) +:+ c)).
  change (String x a +:+ b +:+ c) with (String x (a +:+ b +:+ c)). by rewrite IH.
Qed.

(** A text joined with others stands in the result, between what comes
    before it and what comes after. *)
Lemma string_concat_In sep fields x :
  In x fields ->
  exists before after, String.concat sep fields = before +:+ x +:+ after.
Proof.
  induction fields as [|y rest IH]; [done|]. intros [-> | Hin].
  - destruct rest as [|z rest].
    + exists "", "". cbn [String.concat]. by rewrite string_app_nil_r.
    + exists "", (sep +:+ String.concat sep (z :: rest)). done.
  - destruct (IH Hin) as (before & after & Heq).
    destruct rest as [|z rest]; [done|].
    exists (y +:+ sep +:+ before), after.
    change (String.concat sep (y :: z :: rest))
      with (y +:+ sep +:+ String.concat sep (z :: rest)).
    by rewrite Heq, !string_app_assoc.
Qed.

(** X15: when a page leaves the counter below [numFound], the cursor mark
    of the answer is written into the params object, the other params
    staying as they are, and the request sent next is built from it: the
    URL that leaves (added to the requests sent and to the pending ones) is
    the search endpoint followed by a query string in which
    [cursorMark=] and the escaped mark stand.  When the page ends the
    scroll the params and the requests are left alone. *)
Theorem next_request_carries_the_cursor w p w' :
  step (Resolve p) w = Some w' ->
  (counter (self w) + Z.of_nat (length (docs p)) < numFound p ->
   get_prop "cursorMark" (load (params (self w')) (store w')) = VStr (nextCursorMark p)
   /\ (forall k, k <> "cursorMark" ->
       get_prop k (load (params (self w')) (store w'))
       = get_prop k (load (params (self w)) (store w)))
   /\ (exists before after,
         issued w'
         = issued w
           ++ [urlBase (self w) +:+ "/?" +:+ before
               +:+ ("cursorMark=" +:+ encodeURIComponent (nextCursorMark p))
               +:+ after]
         /\ pending w'
            = tail (pending w)
              ++ [urlBase (self w) +:+ "/?" +:+ before
                  +:+ ("cursorMark=" +:+ encodeURIComponent (nextCursorMark p))
                  +:+ after])
   /\ issued w' = issued w ++ [page_url w']
   /\ In ("cursorMark=" +:+ encodeURIComponent (nextCursorMark p)) (page_fields w'))
  /\ (numFound p <= counter (self w) + Z.of_nat (length (docs p)) ->
      store w' = store w /\ issued w' = issued w).
Proof.
  cbn [step]. unfold settled. destruct (pending w) as [|u rest]; [done|].
  intros H. injection H as <-. split.
  - intros Hlt. rewrite on_fulfilled_continue_eq by exact Hlt.
    cbn [self store issued pending params urlBase tail].
    unfold page_fields. cbn [self store params].
    rewrite load_insert. split; [apply get_prop_set_eq|].
    split; [by intros k Hk; rewrite get_prop_set_ne|].
    assert (Hin : In ("cursorMark=" +:+ encodeURIComponent (nextCursorMark p))
                     (concat (map stringify_field
                                (set_prop "cursorMark" (VStr (nextCursorMark p))
                                   (load (params (self w)) (store w)))))).
    { apply (stringify_field_In "cursorMark"), get_prop_set_eq. }
    split; [|by split].
    destruct (string_concat_In "&" _ _ Hin) as (before & after & Heq).
    exists before, after. unfold page_url, stringify. cbn [self store params urlBase].
    by rewrite load_insert, Heq.
  - intros Hge. by rewrite on_fulfilled_end.
Qed.

Lemma next_request_carries_the_cursor_witness :
  exists w1 w2 before after,
    run [Pull] (constructor None ∅) = Some w1
    /\ step (Resolve (Page [VStr "doc1"] 2 "AoE/x=")) w1 = Some w2
    /\ issued w2
       = issued w1
         ++ [urlBase (self w1) +:+ "/?" +:+ before
             +:+ ("cursorMark=" +:+ encodeURIComponent "AoE/x=") +:+ after]
    /\ issued w2
       = ["http://api.archives-ouvertes.fr/search/?q=*&sort=docid%20asc&cursorMark=*&rows=1000";
          "http://api.archives-ouvertes.fr/search/?q=*&sort=docid%20asc&cursorMark=AoE%2Fx%3D&rows=1000"].
Proof.
  pose proof (next_request_carries_the_cursor (_read (constructor None ∅))
                (Page [VStr "doc1"] 2 "AoE/x=")) as Hnext.
  destruct (Hnext _ eq_refl) as [Hcontinue _].
  destruct Hcontinue as (_ & _ & (before & after & Hissued & _) & _); [reflexivity|].
  eexists _, _, before, after. split; [reflexivity|]. split; [reflexivity|].
  split; [exact Hissued | reflexivity].
Defined.


(** X17: a stream drained over any number of pages: when every page but
    the last leaves the counter below the total it reports and the last one
    reaches it, the stream sends one request for each page, pushes the
    documents of all the pages in their order, signals end-of-data once,
    and is back at rest with the counter at zero and nothing pending,
    whatever pulls arrive in between. *)
Theorem drain_over_any_pages options h pages p es :
  continues 0 pages = true ->
  numFound p <= Z.of_nat (length (all_docs pages)) + Z.of_nat (length (docs p)) ->
  responses es = map Resolve pages ->
  exists w,
    run (Pull :: es ++ [Resolve p]) (constructor options h) = Some w
    /\ signals w = map Push (all_docs (pages ++ [p])) ++ [PushNull]
    /\ emitted w = all_docs (pages ++ [p])
    /\ length (issued w) = S (length pages)
    /\ pending w = []
    /\ reading (self w) = false
    /\ counter (self w) = 0.
Proof.
  intros Hcont Hge Hresp.
  destruct (scroll_from_start options h pages es Hcont Hresp)
    as (w1 & u & Hrun & Hr & Hp & Hc & Hs & Hi).
  destruct (end_of_scroll [] p w1 u) as (w & Hend & Hs' & Hi' & Hp' & Hr' & Hc');
    try done.
  { by rewrite Hc. }
  exists w. cbn [app] in Hend.
  assert (Hsig : signals w = map Push (all_docs (pages ++ [p])) ++ [PushNull]).
  { rewrite Hs', Hs. unfold all_docs. rewrite map_app, concat_app. cbn [map concat].
    by rewrite app_nil_r, map_app, <- app_assoc. }
  split.
  { rewrite app_comm_cons, run_app, Hrun. exact Hend. }
  split; [done|]. split.
  { unfold emitted. rewrite Hsig, omap_app, omap_push. cbn. apply app_nil_r. }
  split; [by rewrite Hi', Hi|]. done.
Qed.

Lemma drain_over_any_pages_witness :
  exists w,
    run [Pull; Resolve (Page [VStr "d1"; VStr "d2"] 3 "m1"); Pull;
         Resolve (Page [VStr "d3"] 3 "m2")] (constructor None ∅) = Some w
    /\ emitted w = [VStr "d1"; VStr "d2"; VStr "d3"]
    /\ length (issued w) = 2%nat.
Proof.
  destruct (drain_over_any_pages None ∅ [Page [VStr "d1"; VStr "d2"] 3 "m1"]
              (Page [VStr "d3"] 3 "m2")
              [Resolve (Page [VStr "d1"; VStr "d2"] 3 "m1"); Pull])
    as (w & Hrun & _ & Hem & Hi & _); [reflexivity | cbn; lia | reflexivity |].
  exists w. repeat split; assumption.
Defined.

Lemma continues_repeat_empty c p n :
  docs p = [] -> c < numFound p -> continues c (repeat p n) = true.
Proof.
  intros Hd Hlt. induction n as [|n IH]; [done|].
  cbn [repeat continues]. rewrite Hd. cbn [length]. rewrite Z.add_0_r, IH.
  apply Z.ltb_lt in Hlt. by rewrite Hlt.
Qed.

Lemma all_docs_repeat_empty p n : docs p = [] -> all_docs (repeat p n) = [].
Proof.
  intros Hd. unfold all_docs. induction n as [|n IH]; [done|].
  cbn [repeat map concat]. by rewrite Hd, IH.
Qed.

(** X18: the stream has no guard against a backend that makes no progress:
    as long as the answers carry no document while reporting a positive
    total, each answer makes the stream send one more request, pushing
    nothing and never signalling end-of-data. *)
Theorem empty_pages_are_requested_forever options h p n :
  docs p = [] ->
  0 < numFound p ->
  exists w,
    run (Pull :: repeat (Resolve p) n) (constructor options h) = Some w
    /\ length (issued w) = S n
    /\ length (pending w) = 1%nat
    /\ signals w = []
    /\ counter (self w) = 0.
Proof.
  intros Hd Hlt.
  destruct (scroll_from_start options h (repeat p n) (repeat (Resolve p) n))
    as (w & u & Hrun & _ & Hp & Hc & Hs & Hi).
  { by apply continues_repeat_empty. }
  { clear. induction n as [|n IH]; [done|]. cbn. by rewrite <- IH. }
  rewrite all_docs_repeat_empty in Hc, Hs by done. rewrite repeat_length in Hi.
  exists w. by rewrite Hp.
Qed.

Lemma empty_pages_are_requested_forever_witness :
  exists w,
    run (Pull :: repeat (Resolve (Page [] 10 "*")) 5) (constructor None ∅) = Some w
    /\ length (issued w) = 6%nat
    /\ signals w = [].
Proof.
  destruct (empty_pages_are_requested_forever None ∅ (Page [] 10 "*") 5 eq_refl eq_refl)
    as (w & Hrun & Hi & _ & Hs & _).
  exists w. repeat split; assumption.
Defined.

Lemma tally_app sg1 : forall c sg2, tally c (sg1 ++ sg2) = tally (tally c sg1) sg2.
Proof.
  induction sg1 as [|s rest IH]; intros c sg2; [done|].
  destruct s; cbn [app tally]; apply IH.
Qed.

Lemma tally_push ds : forall c, tally c (map Push ds) = (c + length ds)%nat.
Proof.
  induction ds as [|d rest IH]; intros c; cbn [map tally length]; [lia|].
  rewrite IH. lia.
Qed.

Lemma tally_step e w w' :
  counter (self w) = Z.of_nat (tally 0 (signals w)) ->
  step e w = Some w' ->
  counter (self w') = Z.of_nat (tally 0 (signals w')).
Proof.
  intros Hinv Hstep. destruct e as [|p|err]; cbn [step] in Hstep.
  - injection Hstep as <-. unfold _read. by destruct (reading (self w)).
  - unfold settled in Hstep. destruct (pending w) as [|u rest]; [done|].
    injection Hstep as <-. unfold on_fulfilled. rewrite push_docs_eq.
    unfold next_or_end. cbn [self counter signals store issued pending].
    case_match; cbn [self counter signals getMoreUntilDone].
    + rewrite tally_app, tally_push, Hinv. lia.
    + by rewrite !tally_app, tally_push.
  - unfold settled in Hstep. destruct (pending w) as [|u rest]; [done|].
    injection Hstep as <-. cbn [on_rejected self signals]. by rewrite tally_app.
Qed.

(** X19: in every state a stream can reach, the counter is the number of
    documents pushed since the last end-of-data (since the start when there
    was none); in particular it is never negative, and it is not changed by
    an error. *)
Theorem counter_counts_pushed_documents options h es w :
  run es (constructor options h) = Some w ->
  counter (self w) = Z.of_nat (tally 0 (signals w))
  /\ 0 <= counter (self w).
Proof.
  intros Hrun.
  assert (Hinv : counter (self w) = Z.of_nat (tally 0 (signals w))); [|split; [done|lia]].
  assert (Hinit : counter (self (constructor options h))
                  = Z.of_nat (tally 0 (signals (constructor options h))))
    by (by destruct options).
  revert Hrun Hinit. generalize (constructor options h). clear options h.
  induction es as [|e es IH]; intros w0 Hrun Hinit.
  - by injection Hrun as <-.
  - cbn [run] in Hrun. destruct (step e w0) as [w1|] eqn:Hstep; [|done].
    apply (IH w1 Hrun). by apply (tally_step e w0).
Qed.

Lemma counter_counts_pushed_documents_witness :
  exists w,
    run [Pull; Resolve (Page [VStr "d1"; VStr "d2"] 5 "m1"); Reject TypeError]
        (constructor None ∅) = Some w
    /\ counter (self w) = 2.
Proof.
  eexists. split; [reflexivity|].
  exact (proj1 (counter_counts_pushed_documents None ∅
                  [Pull; Resolve (Page [VStr "d1"; VStr "d2"] 5 "m1"); Reject TypeError]
                  _ eq_refl)).
Defined.
End StreamExtras.
